(** * s2t: the real-time Whisper voice-to-text daemon

    A shallow embedding of [realtime-whisper-daemon.py]: the text
    reconciliation done by [transcription_worker], the rolling audio buffer
    and the segment dispatch of [process_audio_chunk], and the start/stop
    session control of [start_recording], [stop_recording] and
    [monitor_control_file]; and of the record-then-transcribe daemon of
    [whisper-daemon.py] (module [Batch]).

    Python values are modelled as follows.
    - [str] is a list of Unicode code points ([N]); [len] is [length],
      [s[:n]] is [take n s], [s[n:]] is [drop n s], [a + b] is [a ++ b].
    - [bytes] is a list of byte values ([Z], each in 0..255).
    - a numpy [int16] array is a list of [Z].
    - [collections.deque(maxlen=m)] is a list, oldest element first.
    - [queue.Queue] is a list, next element to be taken first. *)

From Stdlib Require Import ZArith NArith List Ascii String Bool Lia.
From stdpp Require Import base decidable option numbers list.

Local Open Scope nat_scope.

(** ** Python strings *)

Module PyStr.

Definition char := N.
Definition str := list char.

(** A string literal of the source, as its list of code points. *)
Definition lit (s : string) : str :=
  List.map N_of_ascii (list_ascii_of_string s).

(** [str.isspace] on one code point: CPython's [_Py_ascii_whitespace] table
    below 128 and [_PyUnicode_IsWhitespace] above. *)
Definition isspace (c : char) : bool :=
  ((9 <=? c) && (c <=? 13) || (28 <=? c) && (c <=? 32)
   || (c =? 133) || (c =? 160) || (c =? 5760)
   || (8192 <=? c) && (c <=? 8202)
   || (c =? 8232) || (c =? 8233) || (c =? 8239) || (c =? 8287)
   || (c =? 12288))%N.

Fixpoint lstrip (s : str) : str :=
  match s with
  | [] => []
  | c :: s' => if isspace c then lstrip s' else s
  end.

Definition rstrip (s : str) : str := rev (lstrip (rev s)).

(** [s.strip()]: the left scan first, then the right scan on what is left. *)
Definition strip (s : str) : str := rstrip (lstrip s).

(** [s.startswith(p)] and [s.endswith(p)]. *)
Definition startswith (s p : str) : bool := bool_decide (p `prefix_of` s).
Definition endswith (s p : str) : bool := bool_decide (p `suffix_of` s).

(** [a != b] *)
Definition ne (a b : str) : bool := bool_decide (a ≠ b).

(** Truth value of a string: non-empty. *)
Definition truthy (s : str) : bool :=
  match s with [] => false | _ :: _ => true end.

End PyStr.

Import PyStr.

(** ** The reconciliation step of [transcription_worker] *)

(** The body of the worker loop after the backend call, lines 119-141:
    [text] is [result["text"]], [last_text] the global before the step.
    The result is the text handed to the sink ([None] when the sink is not
    invoked) and the global [last_text] after the step.  A failing
    [xdotool] call is caught and does not stop the assignment of
    [last_text], so the outcome of the sink call is not part of the model. *)
Definition reconcile (last_text text : str) : option str * str :=
  let transcription := strip text in
  if truthy transcription then
    if ne transcription last_text && negb (endswith last_text transcription) then
      let new_text :=
        if (length last_text <? length transcription)
           && startswith transcription (take 10 last_text)
        then drop (length last_text) transcription
        else lit " " ++ transcription in
      (Some new_text, transcription)
    else (None, last_text)
  else (None, last_text).

(** The spec's EmittedDelta: the empty string when nothing is emitted. *)
Definition delta (r : option str * str) : str := default [] (fst r).

Definition emitted (last_text text : str) : option str := fst (reconcile last_text text).
Definition last_text_after (last_text text : str) : str := snd (reconcile last_text text).

(** The test of line 125: the new transcription is longer than the last one
    and starts with the first ten characters of it. *)
Definition continues (last_text text : str) : Prop :=
  length last_text < length (strip text) ∧ take 10 last_text `prefix_of` strip text.

(** ** Configuration *)

Definition SAMPLE_RATE : Z := 16000.
Definition CHUNK : nat := 4096.
Definition SEGMENT_LENGTH : Z := 2.
Definition BUFFER_LENGTH : Z := 10.

(** ** [collections.deque] with [maxlen] *)

Section Deque.
Context {A : Type}.

(** [d.append(x)]: the element is added on the right; if the deque is then
    longer than [maxlen], one element is removed on the left. *)
Definition deque_append (maxlen : nat) (d : list A) (x : A) : list A :=
  let d' := d ++ [x] in
  if maxlen <? length d' then tail d' else d'.

(** [d.extend(xs)]: the elements are appended one by one, left to right. *)
Definition deque_extend (maxlen : nat) (d : list A) (xs : list A) : list A :=
  fold_left (deque_append maxlen) xs d.
End Deque.

(** [int(BUFFER_LENGTH * SAMPLE_RATE)], the [maxlen] of [audio_buffer]. *)
Definition audio_buffer_maxlen : nat := Z.to_nat (BUFFER_LENGTH * SAMPLE_RATE).

(** ** [np.frombuffer(chunk, dtype=np.int16)] *)

(** Two bytes per sample, low byte first, two's complement.  A buffer of odd
    size raises [ValueError]: [None]. *)
Definition int16_of_bytes (lo hi : Z) : Z :=
  let v := (lo + 256 * hi)%Z in
  if (32768 <=? v)%Z then (v - 65536)%Z else v.

Fixpoint frombuffer_int16 (chunk : list Z) : option (list Z) :=
  match chunk with
  | [] => Some []
  | lo :: hi :: rest =>
      match frombuffer_int16 rest with
      | Some data => Some (int16_of_bytes lo hi :: data)
      | None => None
      end
  | [_] => None
  end.

(** ** The daemon's globals and what it does to the outside *)

Definition segment := list Z.

Record daemon := mkDaemon {
  recording : bool;
  stream : bool;                 (* [stream] is not [None] *)
  audio_buffer : list Z;         (* deque(maxlen=audio_buffer_maxlen) *)
  audio_queue : list segment;    (* queue.Queue() *)
  workers : nat;                 (* transcription threads still in their loop *)
  stop_threads : bool;
  last_text : str;
  last_command : str             (* local of [monitor_control_file] *)
}.

(** The module-level initialisation, lines 41-49 and 200. *)
Definition initial : daemon :=
  {| recording := false; stream := false; audio_buffer := [];
     audio_queue := []; workers := 0; stop_threads := false;
     last_text := []; last_command := [] |}.

(** Calls that leave the process or cross between the two threads. *)
Inductive action :=
| QueuePut (seg : segment)       (* audio_queue.put(seg) *)
| QueueGet (seg : segment)       (* audio_queue.get(...) returned seg *)
| XdotoolType (text : str)       (* subprocess.run(["xdotool", "type", text]) *)
| XdotoolKeyReturn.              (* subprocess.run(["xdotool", "key", "Return"]) *)

(** ** [start_recording] and [stop_recording] *)

(** [open_ok] tells whether [p.open] returned a stream ([true]) or raised. *)
Definition start_recording (open_ok : bool) (st : daemon) : daemon :=
  if recording st then st
  else
    {| recording := open_ok;
       stream := if open_ok then true else stream st;
       audio_buffer := [];
       audio_queue := audio_queue st;
       workers := S (workers st);
       stop_threads := false;
       last_text := last_text st;
       last_command := last_command st |}.

(** The [join(timeout=2)] waits for the worker but changes no global; the
    worker leaves its loop in an iteration of its own, [transcription_worker_iteration]. *)
Definition stop_recording (st : daemon) : daemon * list action :=
  if negb (recording st) then (st, [])
  else
    ({| recording := false;
        stream := stream st;
        audio_buffer := audio_buffer st;
        audio_queue := audio_queue st;
        workers := workers st;
        stop_threads := true;
        last_text := last_text st;
        last_command := last_command st |},
     [XdotoolKeyReturn]).

(** ** [process_audio_chunk] *)

Definition process_audio_chunk (chunk : list Z) (st : daemon)
  : option (daemon * list action) :=
  match frombuffer_int16 chunk with
  | None => None
  | Some audio_data =>
      let buf := deque_extend audio_buffer_maxlen (audio_buffer st) audio_data in
      let dispatch := (SEGMENT_LENGTH * SAMPLE_RATE <=? Z.of_nat (length buf))%Z in
      Some ({| recording := recording st;
               stream := stream st;
               audio_buffer := buf;
               audio_queue := if dispatch then audio_queue st ++ [buf] else audio_queue st;
               workers := workers st;
               stop_threads := stop_threads st;
               last_text := last_text st;
               last_command := last_command st |},
            if dispatch then [QueuePut buf] else [])
  end.

(** ** One iteration of the loop of [transcription_worker] *)

(** One pass of [while not stop_threads] in a live worker thread.  [backend]
    is what [whisper_model.transcribe] did in this pass: [Some text] is
    [result["text"]], [None] an exception.  A pass is taken as one atomic
    step: the global [last_text] is read once.  The pass as the source runs
    it, one read of the global at a time, is [Pass.advance]. *)
Definition transcription_worker_iteration (backend : option str) (st : daemon)
  : daemon * list action :=
  match workers st with
  | 0 => (st, [])
  | S w =>
      if stop_threads st then
        ({| recording := recording st; stream := stream st;
            audio_buffer := audio_buffer st; audio_queue := audio_queue st;
            workers := w; stop_threads := stop_threads st;
            last_text := last_text st; last_command := last_command st |}, [])
      else
        match audio_queue st with
        | [] => (st, [])                               (* queue.Empty *)
        | audio_data :: rest =>
            let last' :=
              match backend with
              | Some text => snd (reconcile (last_text st) text)
              | None => last_text st
              end in
            ({| recording := recording st; stream := stream st;
                audio_buffer := audio_buffer st; audio_queue := rest;
                workers := workers st; stop_threads := stop_threads st;
                last_text := last'; last_command := last_command st |},
             QueueGet audio_data ::
             match backend with
             | Some text =>
                 match fst (reconcile (last_text st) text) with
                 | Some new_text => [XdotoolType new_text]
                 | None => []
                 end
             | None => []
             end)
        end
  end.

(** ** One iteration of the loop of [monitor_control_file] *)

Definition set_last_command (c : str) (st : daemon) : daemon :=
  {| recording := recording st; stream := stream st;
     audio_buffer := audio_buffer st; audio_queue := audio_queue st;
     workers := workers st; stop_threads := stop_threads st;
     last_text := last_text st; last_command := c |}.

(** [control] is the content of the control file ([None]: it cannot be
    read, the outer handler sleeps and the iteration ends), [open_ok] the
    outcome of [p.open] should [start_recording] reach it, [read] the outcome
    of [stream.read] ([None]: it raised). *)
Definition monitor_iteration (control : option str) (open_ok : bool)
    (read : option (list Z)) (st : daemon) : daemon * list action :=
  match control with
  | None => (st, [])
  | Some content =>
      let command := strip content in
      let '(st1, out1) :=
        if ne command (last_command st) then
          let '(st', out) :=
            if bool_decide (command = lit "start") then (start_recording open_ok st, [])
            else if bool_decide (command = lit "stop") then stop_recording st
            else (st, []) in
          (set_last_command command st', out)
        else (st, []) in
      if recording st1 && stream st1 then
        match read with
        | None => (st1, out1)
        | Some data =>
            match process_audio_chunk data st1 with
            | Some (st2, out2) => (st2, out1 ++ out2)
            | None => (st1, out1)
            end
        end
      else (st1, out1)
  end.

(** ** Runs of the daemon *)

Inductive event :=
| Monitor (control : option str) (open_ok : bool) (read : option (list Z))
| Worker (backend : option str).

Definition step (ev : event) (st : daemon) : daemon * list action :=
  match ev with
  | Monitor control open_ok read => monitor_iteration control open_ok read st
  | Worker backend => transcription_worker_iteration backend st
  end.

(** The state and the actions, oldest first, after the events [evs]. *)
Fixpoint run (evs : list event) (st : daemon) : daemon * list action :=
  match evs with
  | [] => (st, [])
  | ev :: evs' =>
      let '(st1, out1) := step ev st in
      let '(st2, out2) := run evs' st1 in
      (st2, out1 ++ out2)
  end.

Definition puts (tr : list action) : list segment :=
  omap (fun a => match a with QueuePut s => Some s | _ => None end) tr.
Definition gets (tr : list action) : list segment :=
  omap (fun a => match a with QueueGet s => Some s | _ => None end) tr.
Definition typed (tr : list action) : list str :=
  omap (fun a => match a with XdotoolType t => Some t | _ => None end) tr.

(** The last [m] elements of [l], in their order. *)
Definition lastn {A : Type} (m : nat) (l : list A) : list A :=
  drop (length l - m) l.

(** The numbers [ns] increase strictly from each one to the next. *)
Fixpoint strictly_increasing (ns : list Z) : Prop :=
  match ns with
  | [] => True
  | n :: ns' =>
      match ns' with
      | [] => True
      | n' :: _ => (n < n')%Z ∧ strictly_increasing ns'
      end
  end.

(** The invariant of the rolling buffer. *)
Definition buffer_bounded (st : daemon) : Prop :=
  length (audio_buffer st) ≤ audio_buffer_maxlen.

(** ** A recording of digital silence *)

(** What [stream.read(CHUNK)] returns on silence: [2 * CHUNK] zero bytes. *)
Definition silence_chunk : list Z := replicate (2 * CHUNK) 0%Z.

(** The loop iteration that finds ["start"] in the control file and reads
    [silence_chunk]. *)
Definition silence_poll : event :=
  Monitor (Some (lit "start")) true (Some silence_chunk).

(** The daemon while it records silence: [k] samples in the buffer, [q] in
    the queue, one worker, [lt] the last text. *)
Definition silent (k : nat) (q : list segment) (lt : str) : daemon :=
  {| recording := true; stream := true; audio_buffer := replicate k 0%Z;
     audio_queue := q; workers := 1; stop_threads := false;
     last_text := lt; last_command := lit "start" |}.

(** ** Successive passes of the worker *)

(** The deltas typed, oldest first, and [last_text] at the end, when the
    backend answers [texts] in successive passes of the worker loop. *)
Fixpoint reconcile_all (last_text : str) (texts : list str) : list str * str :=
  match texts with
  | [] => ([], last_text)
  | text :: texts' =>
      let '(new_text, last') := reconcile last_text text in
      let '(typed', last'') := reconcile_all last' texts' in
      (match new_text with Some t => t :: typed' | None => typed' end, last'')
  end.

(** Trimmed transcriptions each of which starts with the one before. *)
Fixpoint growing (last_text : str) (texts : list str) : Prop :=
  match texts with
  | [] => True
  | text :: texts' =>
      strip text = text ∧ last_text `prefix_of` text ∧ growing text texts'
  end.

(** The worker passes of a run that only has worker passes. *)
Definition worker_passes (backends : list (option str)) : list event :=
  List.map Worker backends.

(** * [whisper-daemon.py]: record, then transcribe at the stop *)

Module Batch.

Record daemon := mkDaemon {
  recording : bool;
  stream : bool;                 (* [stream] is not [None] *)
  frames : list (list Z);        (* the chunks read, oldest first *)
  last_command : str             (* local of [monitor_control_file] *)
}.

Definition initial : daemon :=
  {| recording := false; stream := false; frames := []; last_command := [] |}.

Inductive action :=
| WaveWrite (data : list Z)      (* wf.writeframes(b''.join(frames)) *)
| Transcribe                     (* whisper_model.transcribe(AUDIO_FILE) *)
| XdotoolType (text : str)       (* subprocess.run(["xdotool", "type", text]) *)
| XclipCopy (text : str).        (* xclip fed with text.encode() *)

(** How a call to an external tool ends: it returns, it raises
    [SubprocessError] or [FileNotFoundError], or it raises something else. *)
Inductive outcome := Returned | Unavailable | Raised.

Definition start_recording (open_ok : bool) (st : daemon) : daemon :=
  if recording st then st
  else
    {| recording := open_ok;
       stream := if open_ok then true else stream st;
       frames := [];
       last_command := last_command st |}.

(** [wave_ok]: the WAV file could be written; [backend]: the text of the
    result, [None] when [transcribe] raised; [xdotool]: how typing ended.
    The third component tells whether an exception leaves the function:
    only the writing of the WAV file is outside every handler. *)
Definition stop_recording_and_process (wave_ok : bool) (backend : option str)
    (xdotool : outcome) (st : daemon) : daemon * list action * bool :=
  if negb (recording st) then (st, [], false)
  else
    let st' := {| recording := false; stream := stream st;
                  frames := frames st; last_command := last_command st |} in
    match frames st with
    | [] => (st', [], false)
    | _ :: _ =>
        if negb wave_ok then (st', [], true)
        else
          let written := [WaveWrite (concat (frames st)); Transcribe] in
          match backend with
          | None => (st', written, false)
          | Some text =>
              let transcribed_text := strip text in
              if truthy transcribed_text then
                match xdotool with
                | Returned | Raised =>
                    (st', written ++ [XdotoolType transcribed_text], false)
                | Unavailable =>
                    (st', written ++ [XdotoolType transcribed_text;
                                      XclipCopy transcribed_text], false)
                end
              else (st', written, false)
          end
    end.

Definition set_last_command (c : str) (st : daemon) : daemon :=
  {| recording := recording st; stream := stream st;
     frames := frames st; last_command := c |}.

Definition append_frame (data : list Z) (st : daemon) : daemon :=
  {| recording := recording st; stream := stream st;
     frames := frames st ++ [data]; last_command := last_command st |}.

(** The inputs of one iteration of [monitor_control_file]: the content of
    the control file ([None]: it cannot be read), the outcome of [p.open],
    of the writing of the WAV file, of the backend and of [xdotool] should
    the command reach them, and of [stream.read] ([None]: it raised). *)
Record input := mkInput {
  control : option str;
  open_ok : bool;
  wave_ok : bool;
  backend : option str;
  xdotool : outcome;
  read : option (list Z)
}.

Definition monitor_iteration (i : input) (st : daemon) : daemon * list action :=
  match control i with
  | None => (st, [])
  | Some content =>
      let command := strip content in
      let '(st1, out1, raised) :=
        if ne command (last_command st) then
          let '(st', out, raised) :=
            if bool_decide (command = lit "start")
            then (start_recording (open_ok i) st, [], false)
            else if bool_decide (command = lit "stop")
            then stop_recording_and_process (wave_ok i) (backend i) (xdotool i) st
            else (st, [], false) in
          if raised then (st', out, true)
          else (set_last_command command st', out, false)
        else (st, [], false) in
      if raised then (st1, out1)
      else if recording st1 && stream st1 then
        match read i with
        | None => (st1, out1)
        | Some data => (append_frame data st1, out1)
        end
      else (st1, out1)
  end.

Fixpoint run (ins : list input) (st : daemon) : daemon * list action :=
  match ins with
  | [] => (st, [])
  | i :: ins' =>
      let '(st1, out1) := monitor_iteration i st in
      let '(st2, out2) := run ins' st1 in
      (st2, out1 ++ out2)
  end.


(** An iteration that finds ["stop"] in the control file. *)
Definition finish (wave_ok : bool) (backend : option str) (xdotool : outcome) : input :=
  {| control := Some (lit "stop"); open_ok := true; wave_ok := wave_ok;
     backend := backend; xdotool := xdotool; read := None |}.


(** The audio written to WAV files, oldest first. *)
Definition written (tr : list action) : list (list Z) :=
  omap (fun a => match a with WaveWrite d => Some d | _ => None end) tr.

(** The texts typed and the texts sent to the clipboard, oldest first. *)
Definition typed (tr : list action) : list str :=
  omap (fun a => match a with XdotoolType t => Some t | _ => None end) tr.
Definition copied (tr : list action) : list str :=
  omap (fun a => match a with XclipCopy t => Some t | _ => None end) tr.

End Batch.

(** * The worker pass, one read of [last_text] at a time *)

(** Lines 121-141 name the global [last_text] five times before they assign
    it, and no lock is held: another worker thread can assign it between two
    of these reads.  A thread is modelled by the trimmed text of its pass and
    the place it has reached; a step does what the thread does up to its
    next use of the global. *)

Module Pass.

Inductive point :=
| AtNe                       (* l.123: [transcription != last_text] *)
| AtEndswith                 (* l.123: [last_text.endswith(transcription)] *)
| AtLen                      (* l.125: [len(transcription) > len(last_text)] *)
| AtStartswith               (* l.125: [transcription.startswith(last_text[:10])] *)
| AtSlice                    (* l.127: [transcription[len(last_text):]] *)
| AtType (new_text : str)    (* l.136: xdotool is about to type [new_text] *)
| AtAssign                   (* l.141: [last_text = transcription] *)
| AtEnd.                     (* the pass is over *)

Record thread := mkThread {
  transcription : str;
  at_point : point
}.


Definition goto (pt : point) (th : thread) : thread :=
  {| transcription := transcription th; at_point := pt |}.

(** The backend returns [text] to a worker that is between two passes:
    l.119 and the test of l.121, which use no global. *)
Definition begin_pass (text : str) (th : thread) : thread :=
  match at_point th with
  | AtEnd =>
      let t := strip text in
      {| transcription := t; at_point := if truthy t then AtNe else AtEnd |}
  | _ => th
  end.

(** One step of a thread: the thread after it, the global [last_text] after
    it, and what it has [xdotool] type. *)
Definition advance (last_text : str) (th : thread) : thread * str * list str :=
  let t := transcription th in
  match at_point th with
  | AtNe =>
      (goto (if ne t last_text then AtEndswith else AtEnd) th, last_text, [])
  | AtEndswith =>
      (goto (if negb (endswith last_text t) then AtLen else AtEnd) th, last_text, [])
  | AtLen =>
      (goto (if length last_text <? length t then AtStartswith
             else AtType (lit " " ++ t)) th, last_text, [])
  | AtStartswith =>
      (goto (if startswith t (take 10 last_text) then AtSlice
             else AtType (lit " " ++ t)) th, last_text, [])
  | AtSlice =>
      (goto (AtType (drop (length last_text) t)) th, last_text, [])
  | AtType new_text =>
      (goto AtAssign th, last_text, [new_text])
  | AtAssign =>
      (goto AtEnd th, t, [])
  | AtEnd => (th, last_text, [])
  end.

(** The global and the worker threads that are alive. *)
Record state := mkState {
  last_text : str;
  threads : list thread
}.

Inductive event :=
| Begin (i : nat) (text : str)   (* the backend returns [text] to thread [i] *)
| Advance (i : nat).             (* thread [i] runs up to its next point *)

Definition step (ev : event) (s : state) : state * list str :=
  match ev with
  | Begin i text =>
      match threads s !! i with
      | Some th =>
          ({| last_text := last_text s;
              threads := <[i := begin_pass text th]> (threads s) |}, [])
      | None => (s, [])
      end
  | Advance i =>
      match threads s !! i with
      | Some th =>
          let '(th', last', out) := advance (last_text s) th in
          ({| last_text := last'; threads := <[i := th']> (threads s) |}, out)
      | None => (s, [])
      end
  end.

(** The state and the texts typed, oldest first, after the events [evs]. *)
Fixpoint run (evs : list event) (s : state) : state * list str :=
  match evs with
  | [] => (s, [])
  | ev :: evs' =>
      let '(s1, out1) := step ev s in
      let '(s2, out2) := run evs' s1 in
      (s2, out1 ++ out2)
  end.



End Pass.

(** * Properties *)

Example reconcile_hello :
  reconcile [] (lit " hello ") = (Some (lit "hello"), lit "hello").
Proof. vm_compute. reflexivity. Qed.

Example reconcile_hello_world :
  reconcile (lit "hello") (lit "hello world") = (Some (lit " world"), lit "hello world").
Proof. vm_compute. reflexivity. Qed.

Example reconcile_bye :
  reconcile (lit "hello world") (lit "bye") = (Some (lit " bye"), lit "bye").
Proof. vm_compute. reflexivity. Qed.

(** ** Facts about the string operations *)

Lemma truthy_true (s : str) : truthy s = true ↔ s ≠ [].
Proof. destruct s; simpl; split; intros; congruence. Qed.

Lemma truthy_false (s : str) : truthy s = false ↔ s = [].
Proof. destruct s; simpl; split; intros; congruence. Qed.

Lemma startswith_true (s p : str) : startswith s p = true ↔ p `prefix_of` s.
Proof. unfold startswith. apply bool_decide_eq_true. Qed.

Lemma endswith_true (s p : str) : endswith s p = true ↔ p `suffix_of` s.
Proof. unfold endswith. apply bool_decide_eq_true. Qed.

Lemma ne_true (a b : str) : ne a b = true ↔ a ≠ b.
Proof. unfold ne. apply bool_decide_eq_true. Qed.

(** A string that extends another one properly is not one of its endings. *)
Lemma longer_not_suffix (a b : str) : length a < length b → ¬ b `suffix_of` a.
Proof. intros Hlt Hsuf. apply suffix_length in Hsuf. lia. Qed.

(** With ten characters or more in [a], a longer [b] starts with [a[:10]]
    exactly when the first ten characters of both agree. *)
Lemma opening_eq_prefix (a b : str) :
  10 ≤ length a → (take 10 a `prefix_of` b ↔ take 10 b = take 10 a).
Proof.
  intros Hlen. split.
  - intros [k Hk]. rewrite Hk. rewrite take_app_le by (rewrite length_take; lia).
    apply take_ge. rewrite length_take. lia.
  - intros <-. apply prefix_take.
Qed.

(** The slice and the space-joined text are never the same string. *)
Lemma drop_ne_space_app (n : nat) (c : str) : drop n c ≠ lit " " ++ c.
Proof.
  intros Heq. apply (f_equal length) in Heq.
  rewrite length_drop, length_app in Heq. simpl in Heq. lia.
Qed.

(** ** The three outcomes of [reconcile] *)

Section Reconcile.
Variables last text : str.

Lemma reconcile_nothing :
  strip text = [] ∨ strip text = last ∨ strip text `suffix_of` last →
  reconcile last text = (None, last).
Proof.
  unfold reconcile. intros H.
  destruct (truthy (strip text)) eqn:Ht; [|reflexivity].
  apply truthy_true in Ht.
  destruct (ne (strip text) last) eqn:Hne; [|reflexivity].
  apply ne_true in Hne.
  destruct (endswith last (strip text)) eqn:He; [reflexivity|].
  exfalso. destruct H as [H|[H|H]]; [congruence..|].
  apply endswith_true in H. congruence.
Qed.

Lemma reconcile_growth :
  strip text ≠ [] → strip text ≠ last → ¬ strip text `suffix_of` last →
  continues last text →
  reconcile last text = (Some (drop (length last) (strip text)), strip text).
Proof.
  intros Hne0 Hne Hsuf [Hlen Hpre].
  unfold reconcile.
  apply truthy_true in Hne0. rewrite Hne0.
  apply ne_true in Hne. rewrite Hne.
  destruct (endswith last (strip text)) eqn:He;
    [apply endswith_true in He; contradiction|].
  simpl. apply Nat.ltb_lt in Hlen. rewrite Hlen.
  apply startswith_true in Hpre. rewrite Hpre. reflexivity.
Qed.

Lemma reconcile_new_utterance :
  strip text ≠ [] → strip text ≠ last → ¬ strip text `suffix_of` last →
  ¬ continues last text →
  reconcile last text = (Some (lit " " ++ strip text), strip text).
Proof.
  intros Hne0 Hne Hsuf Hnot.
  unfold reconcile.
  apply truthy_true in Hne0. rewrite Hne0.
  apply ne_true in Hne. rewrite Hne.
  destruct (endswith last (strip text)) eqn:He;
    [apply endswith_true in He; contradiction|].
  simpl.
  destruct (length last <? length (strip text)) eqn:Hlen; [|reflexivity].
  destruct (startswith (strip text) (take 10 last)) eqn:Hpre; [|reflexivity].
  exfalso. apply Hnot. split.
  - apply Nat.ltb_lt in Hlen. exact Hlen.
  - apply startswith_true in Hpre. exact Hpre.
Qed.

(** Every call falls in exactly one of the three. *)
Lemma reconcile_cases :
  reconcile last text = (None, last)
  ∨ (continues last text
     ∧ reconcile last text = (Some (drop (length last) (strip text)), strip text))
  ∨ (¬ continues last text
     ∧ reconcile last text = (Some (lit " " ++ strip text), strip text)).
Proof.
  destruct (decide (strip text = [])) as [H0|H0];
    [left; apply reconcile_nothing; auto|].
  destruct (decide (strip text = last)) as [H1|H1];
    [left; apply reconcile_nothing; auto|].
  destruct (decide (strip text `suffix_of` last)) as [H2|H2];
    [left; apply reconcile_nothing; auto|].
  destruct (decide (continues last text)) as [Hc|Hc]; right; [left|right];
    (split; [exact Hc|]).
  - apply reconcile_growth; assumption.
  - apply reconcile_new_utterance; assumption.
Qed.
End Reconcile.

(** ** The reconciliation claims *)

(** C2, as the specification has it, fails: the first delta would be
    [" hello"], with a leading space. *)
Lemma C2_first_delta_counterexample :
  ¬ (reconcile (last_text initial) (lit "hello") = (Some (lit " hello"), lit "hello")
     ∧ reconcile (lit "hello") (lit "hello world")
       = (Some (lit " world"), lit "hello world")).
Proof. intros [H _]. vm_compute in H. discriminate H. Qed.

(** C2 (amended): from the initial state, reconciling ["hello"] emits
    ["hello"] without a leading space (the empty [last_text] makes the
    growth test succeed) and sets [last_text] to ["hello"]; reconciling
    ["hello world"] next emits [" world"] and sets [last_text] to
    ["hello world"]. *)
Theorem C2_hello_then_hello_world :
  reconcile (last_text initial) (lit "hello") = (Some (lit "hello"), lit "hello")
  ∧ reconcile (last_text_after (last_text initial) (lit "hello")) (lit "hello world")
    = (Some (lit " world"), lit "hello world").
Proof. split; vm_compute; reflexivity. Qed.

(** C3, as the specification has it, fails: with [last_text = "hello"] the
    candidate ["hello world"] takes the growth branch although its first ten
    characters, ["hello worl"], are not those of ["hello"]. *)
Lemma C3_first_ten_counterexample :
  ¬ (∀ last c : str,
       strip c = c → c ≠ [] → c ≠ last → ¬ c `suffix_of` last →
       (emitted last c = Some (drop (length last) c)
        ↔ length last < length c ∧ take 10 c = take 10 last)
       ∧ (¬ (length last < length c ∧ take 10 c = take 10 last)
          → emitted last c = Some (lit " " ++ c))).
Proof.
  intros H.
  destruct (H (lit "hello") (lit "hello world")) as [[Hgrow _] _].
  - vm_compute; reflexivity.
  - discriminate.
  - discriminate.
  - apply longer_not_suffix. vm_compute. lia.
  - destruct Hgrow as [_ Hten]; [vm_compute; reflexivity|].
    vm_compute in Hten. discriminate Hten.
Qed.

(** A trimmed candidate that passes both tests is accepted: one of the two
    deltas is emitted and [last_text] becomes the candidate. *)
Lemma reconcile_accepted (last c : str) :
  strip c = c → c ≠ [] → c ≠ last → ¬ c `suffix_of` last →
  (continues last c ∧ reconcile last c = (Some (drop (length last) c), c))
  ∨ (¬ continues last c ∧ reconcile last c = (Some (lit " " ++ c), c)).
Proof.
  intros Hs H0 H1 H2.
  destruct (decide (continues last c)) as [Hg|Hg]; [left|right]; (split; [exact Hg|]).
  - rewrite <- Hs at 2 3. apply reconcile_growth; rewrite ?Hs; assumption.
  - rewrite <- Hs at 2 3. apply reconcile_new_utterance; rewrite ?Hs; assumption.
Qed.

Lemma continues_trimmed (last c : str) :
  strip c = c →
  (continues last c ↔ length last < length c ∧ take 10 last `prefix_of` c).
Proof. intros Hs. unfold continues. rewrite Hs. reflexivity. Qed.

(** The growth delta is emitted exactly when the test of line 125 holds. *)
Lemma emitted_growth_iff (last c : str) :
  strip c = c → c ≠ [] → c ≠ last → ¬ c `suffix_of` last →
  (emitted last c = Some (drop (length last) c) ↔ continues last c).
Proof.
  intros Hs H0 H1 H2. unfold emitted.
  destruct (reconcile_accepted last c Hs H0 H1 H2) as [[Hg Hr]|[Hg Hr]];
    rewrite Hr; simpl.
  - tauto.
  - split; [|intros; contradiction].
    intros Heq. exfalso. injection Heq as Heq. symmetry in Heq.
    exact (drop_ne_space_app _ _ Heq).
Qed.

(** C3 (amended): for every trimmed non-empty candidate that is not
    suppressed by the equality/endswith test, the growth branch (delta
    [candidate[len(lastText):]], no separator) is taken if and only if
    [len(candidate) > len(lastText)] and the candidate starts with
    [lastText[:10]]; in every other such case the delta is
    [" " + candidate]. *)
Theorem C3_growth_iff_startswith_opening (last c : str) :
  strip c = c → c ≠ [] → c ≠ last → ¬ c `suffix_of` last →
  (emitted last c = Some (drop (length last) c)
   ↔ length last < length c ∧ take 10 last `prefix_of` c)
  ∧ (¬ (length last < length c ∧ take 10 last `prefix_of` c)
     → emitted last c = Some (lit " " ++ c)).
Proof.
  intros Hs H0 H1 H2.
  rewrite <- (continues_trimmed last c Hs). split.
  - apply emitted_growth_iff; assumption.
  - intros Hnot. unfold emitted.
    destruct (reconcile_accepted last c Hs H0 H1 H2) as [[Hg _]|[_ Hr]];
      [contradiction|].
    rewrite Hr. reflexivity.
Qed.

Lemma C3_growth_iff_startswith_opening_witness :
  strip (lit "hello world") = lit "hello world"
  ∧ lit "hello world" ≠ []
  ∧ lit "hello world" ≠ lit "hello"
  ∧ ¬ lit "hello world" `suffix_of` lit "hello"
  ∧ ((emitted (lit "hello") (lit "hello world")
      = Some (drop (length (lit "hello")) (lit "hello world"))
      ↔ length (lit "hello") < length (lit "hello world")
        ∧ take 10 (lit "hello") `prefix_of` lit "hello world")
     ∧ (¬ (length (lit "hello") < length (lit "hello world")
           ∧ take 10 (lit "hello") `prefix_of` lit "hello world")
        → emitted (lit "hello") (lit "hello world")
          = Some (lit " " ++ lit "hello world"))).
Proof.
  assert (H1 : strip (lit "hello world") = lit "hello world") by (vm_compute; reflexivity).
  assert (H2 : lit "hello world" ≠ []) by discriminate.
  assert (H3 : lit "hello world" ≠ lit "hello") by discriminate.
  assert (H4 : ¬ lit "hello world" `suffix_of` lit "hello")
    by (apply longer_not_suffix; vm_compute; lia).
  split; [exact H1|]. split; [exact H2|]. split; [exact H3|]. split; [exact H4|].
  exact (C3_growth_iff_startswith_opening (lit "hello") (lit "hello world") H1 H2 H3 H4).
Defined.

(** With ten characters or more in [lastText], the test of C3 as it was
    written (equal first ten characters) is the test of the code. *)
Lemma growth_iff_first_ten_long (last c : str) :
  10 ≤ length last →
  strip c = c → c ≠ [] → c ≠ last → ¬ c `suffix_of` last →
  (emitted last c = Some (drop (length last) c)
   ↔ length last < length c ∧ take 10 c = take 10 last).
Proof.
  intros Hlen Hs H0 H1 H2.
  rewrite (emitted_growth_iff last c Hs H0 H1 H2), (continues_trimmed last c Hs).
  rewrite (opening_eq_prefix last c Hlen). reflexivity.
Qed.

(** [start_recording] and [stop_recording] do not assign [last_text]. *)
Lemma start_recording_last_text (open_ok : bool) (st : daemon) :
  last_text (start_recording open_ok st) = last_text st.
Proof. unfold start_recording. destruct (recording st); reflexivity. Qed.

Lemma stop_recording_last_text (st : daemon) :
  last_text (fst (stop_recording st)) = last_text st.
Proof. unfold stop_recording. destruct (recording st); reflexivity. Qed.

(** C4, as the specification has it, fails: after ["hello world"] the
    unrelated candidate ["bye"] replaces [last_text], which gets shorter. *)
Lemma C4_shrink_counterexample :
  ¬ (∀ last text : str,
       last_text_after last text ≠ last →
       length last ≤ length (last_text_after last text)).
Proof.
  intros H. specialize (H (lit "hello world") (lit "bye")).
  vm_compute in H. assert (Hle : 11 ≤ 3) by (apply H; discriminate). lia.
Qed.

(** C4 (amended): a reconcile step that mutates state sets [lastText] to the
    trimmed candidate; when it takes the growth branch the length of
    [lastText] after the step is greater than before; when it takes the
    new-utterance branch the candidate replaces [lastText] whatever its
    length.  The start and stop commands leave [lastText] as it is. *)
Theorem C4_last_text_steps (last text : str) (open_ok : bool) (st : daemon) :
  (last_text_after last text = last
   ∨ (last_text_after last text = strip text
      ∧ ((emitted last text = Some (drop (length last) (strip text))
          ∧ length last < length (last_text_after last text))
         ∨ emitted last text = Some (lit " " ++ strip text))))
  ∧ last_text (start_recording open_ok st) = last_text st
  ∧ last_text (fst (stop_recording st)) = last_text st.
Proof.
  split; [|split; [apply start_recording_last_text|apply stop_recording_last_text]].
  unfold last_text_after, emitted.
  destruct (reconcile_cases last text) as [Hr|[[[Hlen _] Hr]|[_ Hr]]]; rewrite Hr; simpl.
  - left; reflexivity.
  - right. split; [reflexivity|]. left. split; [reflexivity|exact Hlen].
  - right. split; [reflexivity|]. right. reflexivity.
Qed.

(** C5: for all [lastText] and every trimmed candidate that starts with
    [lastText], the delta of [reconcile] is [candidate[len(lastText):]], and
    the space-joined text is not what is emitted. *)
Theorem C5_prefix_delta_is_suffix (last c : str) :
  strip c = c → last `prefix_of` c →
  delta (reconcile last c) = drop (length last) c
  ∧ emitted last c ≠ Some (lit " " ++ c).
Proof.
  intros Hs Hpre.
  assert (Hd : reconcile last c = (None, last) ∧ drop (length last) c = []
               ∨ reconcile last c = (Some (drop (length last) c), c)).
  { destruct (decide (c = last)) as [->|Hne].
    - left. split; [apply reconcile_nothing; rewrite Hs; auto|apply drop_all].
    - assert (Hlen : length last < length c).
      { pose proof (prefix_length _ _ Hpre) as Hle.
        destruct (decide (length last = length c)) as [He|He]; [|lia].
        exfalso. apply Hne. symmetry. apply (prefix_length_eq _ _ Hpre). lia. }
      right.
      assert (H0 : c ≠ []) by (intros ->; simpl in Hlen; lia).
      rewrite <- Hs at 2 3.
      apply reconcile_growth; rewrite ?Hs; try assumption.
      + apply longer_not_suffix; exact Hlen.
      + split; rewrite ?Hs; [exact Hlen|].
        transitivity last; [apply prefix_take|exact Hpre]. }
  unfold delta, emitted.
  destruct Hd as [[Hr Hnil]|Hr]; rewrite Hr; simpl.
  - split; [symmetry; exact Hnil|discriminate].
  - split; [reflexivity|].
    intros Heq. injection Heq as Heq. exact (drop_ne_space_app _ _ Heq).
Qed.

Lemma C5_prefix_delta_is_suffix_witness :
  strip (lit "hello world") = lit "hello world"
  ∧ lit "hello" `prefix_of` lit "hello world"
  ∧ delta (reconcile (lit "hello") (lit "hello world")) = lit " world"
  ∧ emitted (lit "hello") (lit "hello world") ≠ Some (lit " " ++ lit "hello world").
Proof.
  assert (Hs : strip (lit "hello world") = lit "hello world") by (vm_compute; reflexivity).
  assert (Hp : lit "hello" `prefix_of` lit "hello world")
    by (exists (lit " world"); vm_compute; reflexivity).
  split; [exact Hs|]. split; [exact Hp|].
  exact (C5_prefix_delta_is_suffix (lit "hello") (lit "hello world") Hs Hp).
Defined.

(** C6: for every trimmed candidate, if the candidate equals [lastText] or
    [lastText] ends with the candidate, [reconcile] emits nothing (the delta
    is empty) and [lastText] is unchanged. *)
Theorem C6_suppressed (last c : str) :
  strip c = c → c = last ∨ c `suffix_of` last →
  emitted last c = None
  ∧ delta (reconcile last c) = []
  ∧ last_text_after last c = last.
Proof.
  intros Hs H. unfold emitted, delta, last_text_after.
  rewrite reconcile_nothing; [auto|]. rewrite Hs. auto.
Qed.

Lemma C6_suppressed_witness :
  strip (lit "world") = lit "world"
  ∧ (lit "world" = lit "hello world" ∨ lit "world" `suffix_of` lit "hello world")
  ∧ emitted (lit "hello world") (lit "world") = None
  ∧ delta (reconcile (lit "hello world") (lit "world")) = []
  ∧ last_text_after (lit "hello world") (lit "world") = lit "hello world".
Proof.
  assert (Hs : strip (lit "world") = lit "world") by (vm_compute; reflexivity).
  assert (Hp : lit "world" = lit "hello world" ∨ lit "world" `suffix_of` lit "hello world")
    by (right; exists (lit "hello "); vm_compute; reflexivity).
  split; [exact Hs|]. split; [exact Hp|].
  exact (C6_suppressed (lit "hello world") (lit "world") Hs Hp).
Defined.

(** C7: for every string [a] and every engine state, [reconcile(a)]
    followed at once by [reconcile(a)] emits nothing on the second call. *)
Theorem C7_second_call_silent (last a : str) :
  emitted (last_text_after last a) a = None
  ∧ delta (reconcile (last_text_after last a) a) = []
  ∧ last_text_after (last_text_after last a) a = last_text_after last a.
Proof.
  assert (H : reconcile (last_text_after last a) a = (None, last_text_after last a)).
  { unfold last_text_after.
    destruct (reconcile_cases last a) as [Hr|[[_ Hr]|[_ Hr]]]; rewrite Hr; simpl.
    - exact Hr.
    - apply reconcile_nothing; auto.
    - apply reconcile_nothing; auto. }
  unfold emitted, delta. rewrite H. simpl.
  unfold last_text_after at 1. rewrite H. auto.
Qed.

(** With [last_text] read once for the whole pass, the delta is a non-empty
    string: in the growth branch the candidate is longer than [lastText], in
    the new-utterance branch the delta starts with a space. *)
Lemma emitted_nonempty_one_read (last text d : str) :
  emitted last text = Some d → d ≠ [] ∧ 0 < length d.
Proof.
  unfold emitted.
  destruct (reconcile_cases last text) as [Hr|[[[Hlen _] Hr]|[_ Hr]]];
    rewrite Hr; simpl; intros Hd; [discriminate| |];
    injection Hd as <-.
  - assert (0 < length (drop (length last) (strip text)))
      by (rewrite length_drop; lia).
    split; [|assumption]. intros Hnil. rewrite Hnil in *. simpl in *. lia.
  - split; [discriminate|]. simpl. lia.
Qed.

Lemma emitted_nonempty_one_read_example :
  emitted (lit "hello") (lit "hello world") = Some (lit " world")
  ∧ lit " world" ≠ [] ∧ 0 < length (lit " world").
Proof.
  assert (He : emitted (lit "hello") (lit "hello world") = Some (lit " world"))
    by (vm_compute; reflexivity).
  split; [exact He|].
  exact (emitted_nonempty_one_read (lit "hello") (lit "hello world") (lit " world") He).
Defined.

(** ** The rolling buffer *)

Section DequeFacts.
Context {A : Type}.
Implicit Types (d xs l : list A) (m : nat).

Lemma tail_drop l : tail l = drop 1 l.
Proof. destruct l; reflexivity. Qed.

Lemma length_lastn m l : length (lastn m l) = Nat.min m (length l).
Proof. unfold lastn. rewrite length_drop. lia. Qed.

Lemma lastn_all m l : length l ≤ m → lastn m l = l.
Proof. intros H. unfold lastn. replace (length l - m) with 0 by lia. reflexivity. Qed.

(** Keeping the last [m] twice is keeping the last [m] once. *)
Lemma lastn_app_lastn m l xs : lastn m (lastn m l ++ xs) = lastn m (l ++ xs).
Proof.
  unfold lastn. rewrite !length_app, !drop_app, length_drop, drop_drop.
  f_equal; f_equal; lia.
Qed.

Lemma deque_append_lastn m d x :
  length d ≤ m → deque_append m d x = lastn m (d ++ [x]).
Proof.
  intros Hle. unfold deque_append, lastn. rewrite length_app. simpl.
  destruct (m <? length d + 1) eqn:Hfull.
  - apply Nat.ltb_lt in Hfull. rewrite tail_drop. f_equal. lia.
  - apply Nat.ltb_ge in Hfull. replace (length d + 1 - m) with 0 by lia.
    reflexivity.
Qed.

Lemma deque_extend_lastn m xs :
  ∀ d, length d ≤ m → deque_extend m d xs = lastn m (d ++ xs).
Proof.
  unfold deque_extend.
  induction xs as [|x xs IH]; intros d Hle; simpl.
  - rewrite app_nil_r. symmetry. apply lastn_all. exact Hle.
  - rewrite deque_append_lastn by exact Hle.
    rewrite IH by (rewrite length_lastn; lia).
    rewrite lastn_app_lastn, <- app_assoc. reflexivity.
Qed.

Lemma deque_extend_length m d xs :
  length d ≤ m → length (deque_extend m d xs) ≤ m.
Proof.
  intros Hle. rewrite deque_extend_lastn by exact Hle.
  rewrite length_lastn. lia.
Qed.

(** A sequence of pushes is one push of all the samples. *)
Lemma pushes_lastn m (pushes : list (list A)) :
  ∀ d, length d ≤ m →
       fold_left (deque_extend m) pushes d = lastn m (d ++ concat pushes).
Proof.
  induction pushes as [|xs pushes IH]; intros d Hle; simpl.
  - rewrite app_nil_r. symmetry. apply lastn_all. exact Hle.
  - rewrite IH by (apply deque_extend_length; exact Hle).
    rewrite deque_extend_lastn by exact Hle.
    rewrite lastn_app_lastn, <- app_assoc. reflexivity.
Qed.
End DequeFacts.

Lemma start_recording_buffer (open_ok : bool) (st : daemon) :
  audio_buffer (start_recording open_ok st) = audio_buffer st
  ∨ audio_buffer (start_recording open_ok st) = [].
Proof. unfold start_recording. destruct (recording st); auto. Qed.

Lemma stop_recording_buffer (st : daemon) :
  audio_buffer (fst (stop_recording st)) = audio_buffer st.
Proof. unfold stop_recording. destruct (recording st); reflexivity. Qed.

Lemma process_audio_chunk_buffer (chunk : list Z) (st st' : daemon) out :
  process_audio_chunk chunk st = Some (st', out) →
  ∃ audio_data, frombuffer_int16 chunk = Some audio_data
    ∧ audio_buffer st' = deque_extend audio_buffer_maxlen (audio_buffer st) audio_data.
Proof.
  unfold process_audio_chunk.
  destruct (frombuffer_int16 chunk) as [data|]; [|discriminate].
  intros H. injection H as <- _. exists data. auto.
Qed.

Lemma worker_buffer (backend : option str) (st : daemon) :
  audio_buffer (fst (transcription_worker_iteration backend st)) = audio_buffer st.
Proof.
  unfold transcription_worker_iteration.
  destruct (workers st); [reflexivity|].
  destruct (stop_threads st); [reflexivity|].
  destruct (audio_queue st); reflexivity.
Qed.

Lemma monitor_buffer_bounded control open_ok read (st : daemon) :
  buffer_bounded st → buffer_bounded (fst (monitor_iteration control open_ok read st)).
Proof.
  unfold buffer_bounded, monitor_iteration. intros Hle.
  destruct control as [content|]; [|exact Hle].
  set (command := strip content).
  destruct (ne command (last_command st)).
  - assert (Hcmd : ∀ p : daemon * list action,
              length (audio_buffer (fst p)) ≤ audio_buffer_maxlen →
              length (audio_buffer
                (fst (let '(st1, out1) :=
                        (let '(st', out) := p in (set_last_command command st', out)) in
                      if recording st1 && stream st1 then
                        match read with
                        | None => (st1, out1)
                        | Some data =>
                            match process_audio_chunk data st1 with
                            | Some (st2, out2) => (st2, out1 ++ out2)
                            | None => (st1, out1)
                            end
                        end
                      else (st1, out1)))) ≤ audio_buffer_maxlen).
    { intros [st' out] Hp. simpl in Hp.
      destruct (recording (set_last_command command st') && stream (set_last_command command st'));
        [|exact Hp].
      destruct read as [data|]; [|exact Hp].
      destruct (process_audio_chunk data (set_last_command command st')) as [[st2 out2]|] eqn:Hproc;
        [|exact Hp].
      apply process_audio_chunk_buffer in Hproc as (audio_data & _ & Hb).
      simpl. rewrite Hb. apply deque_extend_length. exact Hp. }
    apply Hcmd.
    destruct (bool_decide (command = lit "start")).
    + simpl. destruct (start_recording_buffer open_ok st) as [->| ->]; [exact Hle|simpl; lia].
    + destruct (bool_decide (command = lit "stop")); [|exact Hle].
      rewrite stop_recording_buffer. exact Hle.
  - destruct (recording st && stream st); [|exact Hle].
    destruct read as [data|]; [|exact Hle].
    destruct (process_audio_chunk data st) as [[st2 out2]|] eqn:Hproc; [|exact Hle].
    apply process_audio_chunk_buffer in Hproc as (audio_data & _ & Hb).
    simpl. rewrite Hb. apply deque_extend_length. exact Hle.
Qed.

Lemma step_buffer_bounded (ev : event) (st : daemon) :
  buffer_bounded st → buffer_bounded (fst (step ev st)).
Proof.
  destruct ev as [control open_ok read|backend]; simpl.
  - apply monitor_buffer_bounded.
  - unfold buffer_bounded. rewrite worker_buffer. auto.
Qed.

Lemma run_buffer_bounded (evs : list event) :
  ∀ st, buffer_bounded st → buffer_bounded (fst (run evs st)).
Proof.
  induction evs as [|ev evs IH]; intros st Hst; simpl; [exact Hst|].
  pose proof (step_buffer_bounded ev st Hst) as H1.
  destruct (step ev st) as [st1 out1]. simpl in H1.
  specialize (IH st1 H1). destruct (run evs st1) as [st2 out2]. exact IH.
Qed.

(** C8: whatever is pushed, the rolling buffer is never longer than its
    capacity [BUFFER_LENGTH * SAMPLE_RATE]; a push that would exceed it
    evicts the oldest samples, so that the buffer holds the most recent
    samples, in the order in which they came. *)
Theorem C8_rolling_buffer_bounded_fifo :
  Z.of_nat audio_buffer_maxlen = (BUFFER_LENGTH * SAMPLE_RATE)%Z
  ∧ (∀ evs : list event,
       length (audio_buffer (fst (run evs initial))) ≤ audio_buffer_maxlen)
  ∧ (∀ (evs : list event) (chunk : list Z),
       let st := fst (run evs initial) in
       match process_audio_chunk chunk st, frombuffer_int16 chunk with
       | Some (st', _), Some audio_data =>
           audio_buffer st' = lastn audio_buffer_maxlen (audio_buffer st ++ audio_data)
       | None, None => True
       | _, _ => False
       end)
  ∧ (∀ pushes : list (list Z),
       let buf := fold_left (deque_extend audio_buffer_maxlen) pushes [] in
       length buf ≤ audio_buffer_maxlen
       ∧ buf = lastn audio_buffer_maxlen (concat pushes)
       ∧ ∃ evicted, concat pushes = evicted ++ buf).
Proof.
  assert (Hinit : buffer_bounded initial) by (unfold buffer_bounded; simpl; lia).
  split; [unfold audio_buffer_maxlen, BUFFER_LENGTH, SAMPLE_RATE; lia|].
  split; [|split].
  - intros evs. apply (run_buffer_bounded evs initial Hinit).
  - intros evs chunk st.
    pose proof (run_buffer_bounded evs initial Hinit) as Hst. fold st in Hst.
    unfold process_audio_chunk.
    destruct (frombuffer_int16 chunk) as [audio_data|]; [|exact I].
    simpl. apply deque_extend_lastn. exact Hst.
  - intros pushes buf.
    assert (Hbuf : buf = lastn audio_buffer_maxlen (concat pushes))
      by (apply (pushes_lastn audio_buffer_maxlen pushes []); simpl; lia).
    split; [|split].
    + rewrite Hbuf, length_lastn. lia.
    + exact Hbuf.
    + exists (take (length (concat pushes) - audio_buffer_maxlen) (concat pushes)).
      rewrite Hbuf. unfold lastn. symmetry. apply take_drop.
Qed.

(** ** The job queue *)

Lemma puts_app (a b : list action) : puts (a ++ b) = puts a ++ puts b.
Proof. apply omap_app. Qed.

Lemma gets_app (a b : list action) : gets (a ++ b) = gets a ++ gets b.
Proof. apply omap_app. Qed.

Lemma typed_app (a b : list action) : typed (a ++ b) = typed a ++ typed b.
Proof. apply omap_app. Qed.

Lemma start_recording_queue (open_ok : bool) (st : daemon) :
  audio_queue (start_recording open_ok st) = audio_queue st.
Proof. unfold start_recording. destruct (recording st); reflexivity. Qed.

Lemma stop_recording_queue (st : daemon) :
  audio_queue (fst (stop_recording st)) = audio_queue st
  ∧ puts (snd (stop_recording st)) = []
  ∧ gets (snd (stop_recording st)) = []
  ∧ typed (snd (stop_recording st)) = [].
Proof. unfold stop_recording. destruct (recording st); auto. Qed.

Lemma process_audio_chunk_queue (chunk : list Z) (st st' : daemon) out :
  process_audio_chunk chunk st = Some (st', out) →
  audio_queue st' = audio_queue st ++ puts out ∧ gets out = [] ∧ typed out = [].
Proof.
  unfold process_audio_chunk.
  destruct (frombuffer_int16 chunk) as [data|]; [|discriminate].
  intros H. injection H as <- <-. simpl.
  destruct (_ <=? _)%Z; simpl; rewrite ?app_nil_r; auto.
Qed.

(** The monitor loop only adds to the queue, at its end. *)
Lemma monitor_queue control open_ok read (st : daemon) :
  audio_queue (fst (monitor_iteration control open_ok read st))
  = audio_queue st ++ puts (snd (monitor_iteration control open_ok read st))
  ∧ gets (snd (monitor_iteration control open_ok read st)) = []
  ∧ typed (snd (monitor_iteration control open_ok read st)) = [].
Proof.
  pose proof (stop_recording_queue st) as (Hq & Hp & Hg & Ht).
  pose proof (start_recording_queue open_ok st) as Hs.
  unfold monitor_iteration.
  destruct (stop_recording st) as [st0 out0]; simpl in Hq, Hp, Hg, Ht.
  repeat case_match; simplify_eq/=;
    repeat match goal with
      | H : process_audio_chunk _ _ = Some _ |- _ =>
          apply process_audio_chunk_queue in H as (? & ? & ?); simpl in *
      end;
    rewrite ?puts_app, ?gets_app, ?typed_app, ?app_nil_r;
    repeat match goal with H : _ = _ |- _ => rewrite H end;
    rewrite ?app_nil_r, ?Hs; auto.
Qed.

(** The worker only takes from the queue, at its front. *)
Lemma worker_queue (backend : option str) (st : daemon) :
  audio_queue st
  = gets (snd (transcription_worker_iteration backend st))
    ++ audio_queue (fst (transcription_worker_iteration backend st))
  ∧ puts (snd (transcription_worker_iteration backend st)) = [].
Proof.
  unfold transcription_worker_iteration.
  destruct (workers st); [auto|].
  destruct (stop_threads st); [auto|].
  destruct (audio_queue st) as [|seg rest] eqn:Hq; simpl; [rewrite Hq; auto|].
  destruct backend as [text|]; [|auto].
  destruct (fst (reconcile (last_text st) text)); auto.
Qed.

Lemma step_queue (ev : event) (st : daemon) :
  audio_queue st ++ puts (snd (step ev st))
  = gets (snd (step ev st)) ++ audio_queue (fst (step ev st)).
Proof.
  destruct ev as [control open_ok read|backend]; simpl.
  - destruct (monitor_queue control open_ok read st) as (-> & -> & _). reflexivity.
  - destruct (worker_queue backend st) as (Hq & ->).
    rewrite app_nil_r. exact Hq.
Qed.

Lemma run_cons (ev : event) (evs : list event) (st : daemon) :
  run (ev :: evs) st
  = (fst (run evs (fst (step ev st))),
     snd (step ev st) ++ snd (run evs (fst (step ev st)))).
Proof.
  simpl. destruct (step ev st) as [st1 out1]. simpl.
  destruct (run evs st1) as [st2 out2]. reflexivity.
Qed.

Lemma run_app (evs1 evs2 : list event) :
  ∀ st, run (evs1 ++ evs2) st
        = (fst (run evs2 (fst (run evs1 st))),
           snd (run evs1 st) ++ snd (run evs2 (fst (run evs1 st)))).
Proof.
  induction evs1 as [|ev evs1 IH]; intros st.
  - simpl. destruct (run evs2 st); reflexivity.
  - rewrite <- app_comm_cons, !run_cons, IH. simpl. rewrite app_assoc. reflexivity.
Qed.

Lemma run_queue (evs : list event) :
  ∀ st, audio_queue st ++ puts (snd (run evs st))
        = gets (snd (run evs st)) ++ audio_queue (fst (run evs st)).
Proof.
  induction evs as [|ev evs IH]; intros st.
  - simpl. rewrite app_nil_r. reflexivity.
  - rewrite run_cons. simpl. rewrite puts_app, gets_app.
    rewrite app_assoc, step_queue, <- !app_assoc, IH. reflexivity.
Qed.

(** ** Runs on digital silence *)

Lemma frombuffer_int16_zeros (n : nat) :
  frombuffer_int16 (replicate (2 * n) 0%Z) = Some (replicate n 0%Z).
Proof.
  induction n as [|n IH]; [reflexivity|].
  replace (2 * S n) with (S (S (2 * n))) by lia.
  cbn [replicate frombuffer_int16]. rewrite IH. reflexivity.
Qed.

Lemma deque_extend_zeros (m k n : nat) :
  k ≤ m →
  deque_extend m (replicate k 0%Z) (replicate n 0%Z) = replicate (Nat.min m (k + n)) 0%Z.
Proof.
  intros Hle. rewrite deque_extend_lastn by (rewrite length_replicate; exact Hle).
  unfold lastn. rewrite <- replicate_add, length_replicate, drop_replicate.
  f_equal. lia.
Qed.

Lemma CHUNK_fits : CHUNK ≤ audio_buffer_maxlen.
Proof. unfold CHUNK, audio_buffer_maxlen, BUFFER_LENGTH, SAMPLE_RATE. lia. Qed.

Lemma strip_start : strip (lit "start") = lit "start".
Proof. vm_compute. reflexivity. Qed.

Lemma ne_same (a : str) : ne a a = false.
Proof. unfold ne. apply bool_decide_eq_false. auto. Qed.

(** An iteration that finds the command it has seen before and reads audio
    does [process_audio_chunk] and nothing else. *)
Lemma monitor_same_command content open_ok data (st : daemon) :
  strip content = last_command st → recording st = true → stream st = true →
  monitor_iteration (Some content) open_ok (Some data) st
  = match process_audio_chunk data st with
    | Some (st2, out2) => (st2, out2)
    | None => (st, [])
    end.
Proof.
  intros Hc Hr Hs. unfold monitor_iteration.
  rewrite Hc, ne_same, Hr, Hs. simpl.
  destruct (process_audio_chunk data st) as [[st2 out2]|]; reflexivity.
Qed.

Lemma process_silence (k : nat) (q : list segment) (lt : str) :
  k ≤ audio_buffer_maxlen →
  process_audio_chunk silence_chunk (silent k q lt)
  = let k' := Nat.min audio_buffer_maxlen (k + CHUNK) in
    if (SEGMENT_LENGTH * SAMPLE_RATE <=? Z.of_nat k')%Z
    then Some (silent k' (q ++ [replicate k' 0%Z]) lt, [QueuePut (replicate k' 0%Z)])
    else Some (silent k' q lt, []).
Proof.
  intros Hle. unfold process_audio_chunk, silence_chunk.
  rewrite frombuffer_int16_zeros.
  change (audio_buffer (silent k q lt)) with (replicate k 0%Z).
  rewrite deque_extend_zeros by exact Hle.
  rewrite length_replicate. cbv zeta.
  destruct (_ <=? _)%Z; reflexivity.
Qed.

Lemma step_silence (k : nat) (q : list segment) (lt : str) :
  k ≤ audio_buffer_maxlen →
  step silence_poll (silent k q lt)
  = let k' := Nat.min audio_buffer_maxlen (k + CHUNK) in
    if (SEGMENT_LENGTH * SAMPLE_RATE <=? Z.of_nat k')%Z
    then (silent k' (q ++ [replicate k' 0%Z]) lt, [QueuePut (replicate k' 0%Z)])
    else (silent k' q lt, []).
Proof.
  intros Hle. unfold silence_poll, step.
  rewrite monitor_same_command by (try reflexivity; apply strip_start).
  rewrite process_silence by exact Hle. cbv zeta.
  destruct (_ <=? _)%Z; reflexivity.
Qed.

(** The first iteration after ["start"] is written to the control file. *)
Lemma step_silence_initial :
  step silence_poll initial = (silent CHUNK [] [], []).
Proof.
  unfold silence_poll, step, monitor_iteration.
  rewrite strip_start.
  change (ne (lit "start") (last_command initial)) with true.
  change (bool_decide (lit "start" = lit "start")) with true.
  cbv iota.
  change (set_last_command (lit "start") (start_recording true initial))
    with (silent 0 [] []).
  change (recording (silent 0 [] []) && stream (silent 0 [] [])) with true.
  cbv iota.
  rewrite process_silence by lia. cbv zeta.
  pose proof CHUNK_fits as Hfit.
  replace (Nat.min audio_buffer_maxlen (0 + CHUNK)) with CHUNK by lia.
  replace (SEGMENT_LENGTH * SAMPLE_RATE <=? Z.of_nat CHUNK)%Z with false
    by (symmetry; apply Z.leb_gt; unfold SEGMENT_LENGTH, SAMPLE_RATE, CHUNK; lia).
  reflexivity.
Qed.


(** However long the silence, the daemon stays in a [silent] state. *)
Lemma run_silence_fill (n : nat) (lt : str) :
  ∀ k q, k ≤ audio_buffer_maxlen →
         ∃ q' out, run (replicate n silence_poll) (silent k q lt)
                   = (silent (Nat.min audio_buffer_maxlen (k + n * CHUNK)) q' lt, out).
Proof.
  induction n as [|n IH]; intros k q Hle.
  - exists q, []. cbn [replicate run]. f_equal. f_equal. lia.
  - cbn [replicate]. rewrite run_cons, step_silence by exact Hle. cbv zeta.
    set (k' := Nat.min audio_buffer_maxlen (k + CHUNK)).
    assert (Hk' : k' ≤ audio_buffer_maxlen) by lia.
    destruct (_ <=? _)%Z; cbn [fst snd].
    + destruct (IH k' (q ++ [replicate k' 0%Z]) Hk') as (q' & out & ->).
      exists q', ([QueuePut (replicate k' 0%Z)] ++ out). cbn [fst snd].
      f_equal. f_equal. lia.
    + destruct (IH k' q Hk') as (q' & out & ->).
      exists q', out. cbn [fst snd app]. f_equal. f_equal. lia.
Qed.

(** With the buffer full of silence, every iteration queues the same array. *)
Lemma step_silence_full (q : list segment) (lt : str) :
  step silence_poll (silent audio_buffer_maxlen q lt)
  = (silent audio_buffer_maxlen (q ++ [replicate audio_buffer_maxlen 0%Z]) lt,
     [QueuePut (replicate audio_buffer_maxlen 0%Z)]).
Proof.
  rewrite step_silence by lia. cbv zeta.
  replace (Nat.min audio_buffer_maxlen (audio_buffer_maxlen + CHUNK))
    with audio_buffer_maxlen by lia.
  replace (SEGMENT_LENGTH * SAMPLE_RATE <=? Z.of_nat audio_buffer_maxlen)%Z with true
    by (symmetry; apply Z.leb_le;
        unfold audio_buffer_maxlen, BUFFER_LENGTH, SEGMENT_LENGTH, SAMPLE_RATE; lia).
  reflexivity.
Qed.

Lemma strictly_increasing_app_r (l1 l2 : list Z) :
  strictly_increasing (l1 ++ l2) → strictly_increasing l2.
Proof.
  induction l1 as [|n l1 IH]; [auto|].
  cbn [app strictly_increasing].
  destruct (l1 ++ l2) as [|n' rest] eqn:Happ.
  - intros _. apply app_eq_nil in Happ as [_ ->]. exact I.
  - intros [_ H]. apply IH. exact H.
Qed.

Lemma run_cons_eq ev evs (st st1 st2 : daemon) out1 out2 :
  step ev st = (st1, out1) → run evs st1 = (st2, out2) →
  run (ev :: evs) st = (st2, out1 ++ out2).
Proof. intros H1 H2. rewrite run_cons, H1. cbn [fst snd]. rewrite H2. reflexivity. Qed.

Lemma run_app_eq evs1 evs2 (st st1 st2 : daemon) out1 out2 :
  run evs1 st = (st1, out1) → run evs2 st1 = (st2, out2) →
  run (evs1 ++ evs2) st = (st2, out1 ++ out2).
Proof. intros H1 H2. rewrite run_app, H1. cbn [fst snd]. rewrite H2. reflexivity. Qed.

Lemma CHUNK_Z : Z.of_nat CHUNK = 4096%Z.
Proof. reflexivity. Qed.

Lemma audio_buffer_maxlen_Z : Z.of_nat audio_buffer_maxlen = 160000%Z.
Proof. unfold audio_buffer_maxlen, BUFFER_LENGTH, SAMPLE_RATE. lia. Qed.


(** After forty-two iterations on silence the last two segments queued are
    the same array. *)
Lemma silence_dispatches_twice :
  ∃ (st : daemon) out,
    run (replicate 42 silence_poll) initial
    = (st, out ++ [QueuePut (replicate audio_buffer_maxlen 0%Z);
                   QueuePut (replicate audio_buffer_maxlen 0%Z)]).
Proof.
  destruct (run_silence_fill 39 [] CHUNK [] CHUNK_fits) as (q & out & Hfill).
  pose proof CHUNK_Z as HC. pose proof audio_buffer_maxlen_Z as HM.
  replace (Nat.min audio_buffer_maxlen (CHUNK + 39 * CHUNK))
    with audio_buffer_maxlen in Hfill by lia.
  assert (Hevs : replicate 42 silence_poll
                 = [silence_poll] ++ replicate 39 silence_poll ++ [silence_poll; silence_poll])
    by reflexivity.
  assert (Htr : ∀ P : action, [] ++ out ++ [P] ++ [P] ++ [] = out ++ [P; P])
    by reflexivity.
  eexists. exists out. rewrite Hevs, <- Htr.
  eapply run_cons_eq; [apply step_silence_initial|].
  eapply run_app_eq; [exact Hfill|].
  eapply run_cons_eq; [apply step_silence_full|].
  eapply run_cons_eq; [apply step_silence_full|].
  reflexivity.
Qed.

(** C9, as the specification has it, fails: the item put on the queue is the
    sample array alone, and no number read off the queued items increases
    strictly from one dispatch to the next: two dispatches can queue equal
    arrays. *)
Lemma C9_no_sequence_number_counterexample :
  ¬ ∃ seqno : segment → Z,
      ∀ evs : list event,
        strictly_increasing (List.map seqno (puts (snd (run evs initial)))).
Proof.
  intros [seqno H]. specialize (H (replicate 42 silence_poll)).
  destruct silence_dispatches_twice as (st & out & Hrun).
  rewrite Hrun in H. cbn [snd] in H.
  rewrite puts_app, List.map_app in H.
  apply strictly_increasing_app_r in H.
  destruct H as [H _]. lia.
Qed.

(** C9 (amended): a dispatched segment carries no sequence number; it is the
    content of the rolling buffer at the dispatch.  The job queue is first
    in, first out: at every point of every run, the segments the worker has
    taken, followed by the segments still queued, are the segments
    dispatched, in the order of their dispatch; a worker iteration takes the
    segment at the front of the queue. *)
Theorem C9_dispatch_order (evs : list event) :
  let st := fst (run evs initial) in
  let tr := snd (run evs initial) in
  puts tr = gets tr ++ audio_queue st
  ∧ (∀ chunk : list Z,
       match process_audio_chunk chunk st with
       | Some (st', out) => out = [] ∨ out = [QueuePut (audio_buffer st')]
       | None => True
       end)
  ∧ (∀ backend : option str,
       gets (snd (transcription_worker_iteration backend st)) = []
       ∨ ∃ rest, audio_queue st
                 = gets (snd (transcription_worker_iteration backend st)) ++ rest
                 ∧ length (gets (snd (transcription_worker_iteration backend st))) = 1
                 ∧ audio_queue (fst (transcription_worker_iteration backend st)) = rest).
Proof.
  intros st tr. split; [|split].
  - pose proof (run_queue evs initial) as H. exact H.
  - intros chunk. unfold process_audio_chunk.
    destruct (frombuffer_int16 chunk) as [data|]; [|exact I].
    destruct (_ <=? _)%Z; auto.
  - intros backend. unfold transcription_worker_iteration.
    destruct (workers st); [auto|].
    destruct (stop_threads st); [auto|].
    destruct (audio_queue st) as [|seg rest] eqn:Hq; [auto|].
    right. exists rest. cbn [fst snd audio_queue].
    destruct backend as [text|]; [|auto].
    destruct (fst (reconcile (last_text st) text)); auto.
Qed.

(** ** Sessions *)

(** The monitor loop never assigns [last_text]. *)
Lemma process_audio_chunk_last_text (chunk : list Z) (st st' : daemon) out :
  process_audio_chunk chunk st = Some (st', out) → last_text st' = last_text st.
Proof.
  unfold process_audio_chunk.
  destruct (frombuffer_int16 chunk) as [data|]; [|discriminate].
  intros H. injection H as <- _. reflexivity.
Qed.

Lemma monitor_last_text control open_ok read (st : daemon) :
  last_text (fst (monitor_iteration control open_ok read st)) = last_text st.
Proof.
  pose proof (stop_recording_last_text st) as Hstop.
  pose proof (start_recording_last_text open_ok st) as Hstart.
  unfold monitor_iteration.
  destruct (stop_recording st) as [st0 out0]; simpl in Hstop.
  repeat case_match; simplify_eq/=;
    repeat match goal with
      | H : process_audio_chunk _ _ = Some _ |- _ =>
          apply process_audio_chunk_last_text in H; simpl in H; rewrite H
      end; auto.
Qed.






(** ** The text sink *)

Lemma reconcile_emits_nonempty (last text : str) :
  fst (reconcile last text) ≠ Some [].
Proof.
  destruct (reconcile_cases last text) as [Hr|[[[Hlen _] Hr]|[_ Hr]]];
    rewrite Hr; cbn [fst]; [discriminate| |discriminate].
  intros Heq. injection Heq as Heq. apply (f_equal length) in Heq.
  rewrite length_drop in Heq. simpl in Heq. lia.
Qed.

Lemma worker_typed_nonempty (backend : option str) (st : daemon) :
  Forall (λ t : str, t ≠ []) (typed (snd (transcription_worker_iteration backend st))).
Proof.
  unfold transcription_worker_iteration.
  destruct (workers st); [constructor|].
  destruct (stop_threads st); [constructor|].
  destruct (audio_queue st) as [|seg rest]; [constructor|].
  destruct backend as [text|]; [|constructor].
  pose proof (reconcile_emits_nonempty (last_text st) text) as Hne.
  destruct (fst (reconcile (last_text st) text)) as [new_text|]; [|constructor].
  cbn [snd typed omap]. simpl. constructor; [|constructor].
  intros Hnil. apply Hne. rewrite Hnil. reflexivity.
Qed.

(** In every run whose worker passes are atomic steps, every text typed by
    [xdotool] is non-empty. *)
Lemma run_typed_nonempty (evs : list event) :
  ∀ st, Forall (λ t : str, t ≠ []) (typed (snd (run evs st))).
Proof.
  induction evs as [|ev evs IH]; intros st.
  - constructor.
  - rewrite run_cons. cbn [snd]. rewrite typed_app. apply Forall_app. split; [|apply IH].
    destruct ev as [control open_ok read|backend]; cbn [step].
    + destruct (monitor_queue control open_ok read st) as (_ & _ & ->). constructor.
    + apply worker_typed_nonempty.
Qed.

(** * Further properties *)

(** ** Trimming *)

Lemma lstrip_fixed (s : str) :
  lstrip s = s ↔ match s with [] => True | c :: _ => isspace c = false end.
Proof.
  destruct s as [|c s]; simpl; [tauto|].
  destruct (isspace c) eqn:Hc; split; try done.
  intros Heq. exfalso.
  assert (Hlen : length (lstrip s) ≤ length s).
  { clear. induction s as [|d s IH]; simpl; [lia|]. destruct (isspace d); simpl; lia. }
  rewrite Heq in Hlen. simpl in Hlen. lia.
Qed.

Lemma lstrip_head (s : str) :
  match lstrip s with [] => True | c :: _ => isspace c = false end.
Proof.
  induction s as [|c s IH]; simpl; [exact I|].
  destruct (isspace c) eqn:Hc; [exact IH|exact Hc].
Qed.

Lemma lstrip_idem (s : str) : lstrip (lstrip s) = lstrip s.
Proof. apply lstrip_fixed, lstrip_head. Qed.

Lemma rstrip_idem (s : str) : rstrip (rstrip s) = rstrip s.
Proof. unfold rstrip. rewrite rev_involutive, lstrip_idem. reflexivity. Qed.

(** Dropping spaces on the left keeps the last character when it is not a
    space. *)
Lemma lstrip_snoc (l : str) (c : char) :
  isspace c = false → ∃ l', lstrip (l ++ [c]) = l' ++ [c].
Proof.
  intros Hc. induction l as [|d l IH]; simpl.
  - rewrite Hc. exists []. reflexivity.
  - destruct (isspace d); [exact IH|]. exists (d :: l). reflexivity.
Qed.

(** Dropping spaces on the right does not uncover a space on the left. *)
Lemma lstrip_rstrip (s : str) : lstrip s = s → lstrip (rstrip s) = rstrip s.
Proof.
  intros Hs. apply lstrip_fixed in Hs. apply lstrip_fixed.
  destruct s as [|c s]; [exact I|].
  unfold rstrip. simpl rev.
  destruct (lstrip_snoc (rev s) c Hs) as [l' ->].
  rewrite rev_app_distr. simpl. exact Hs.
Qed.

Lemma strip_idem (s : str) : strip (strip s) = strip s.
Proof.
  unfold strip.
  rewrite (lstrip_rstrip (lstrip s)) by apply lstrip_idem.
  apply rstrip_idem.
Qed.

Lemma rstrip_last (s : str) :
  match last (rstrip s) with Some c => isspace c = false | None => True end.
Proof.
  unfold rstrip. pose proof (lstrip_head (rev s)) as H.
  destruct (lstrip (rev s)) as [|c t]; [exact I|].
  simpl rev. rewrite last_snoc. exact H.
Qed.

(** X1: the text of the backend counts only up to the white space around it,
    and what [strip] leaves neither starts nor ends with white space. *)
Theorem X1_reconcile_ignores_outer_space (prev text : str) :
  reconcile prev (strip text) = reconcile prev text
  ∧ match head (strip text) with Some c => isspace c = false | None => True end
  ∧ match last (strip text) with Some c => isspace c = false | None => True end.
Proof.
  split; [|split].
  - unfold reconcile. rewrite strip_idem. reflexivity.
  - pose proof (lstrip_head (strip text)) as H. unfold strip in *.
    rewrite (lstrip_rstrip (lstrip text)) in H by apply lstrip_idem.
    destruct (rstrip (lstrip text)); [exact I|exact H].
  - unfold strip. apply rstrip_last.
Qed.

(** ** The state of the reconciliation *)

Lemma last_text_after_cases (last text : str) :
  last_text_after last text = last
  ∨ (last_text_after last text = strip text ∧ strip text ≠ []).
Proof.
  unfold last_text_after.
  destruct (decide (strip text = [])) as [H0|H0].
  - left. rewrite reconcile_nothing by auto. reflexivity.
  - destruct (reconcile_cases last text) as [Hr|[[_ Hr]|[_ Hr]]]; rewrite Hr; auto.
Qed.

Lemma worker_last_text (backend : option str) (st : daemon) :
  last_text (fst (transcription_worker_iteration backend st)) = last_text st
  ∨ ∃ text, backend = Some text
      ∧ last_text (fst (transcription_worker_iteration backend st))
        = last_text_after (last_text st) text.
Proof.
  unfold transcription_worker_iteration.
  destruct (workers st); [auto|].
  destruct (stop_threads st); [auto|].
  destruct (audio_queue st); [auto|].
  destruct backend as [text|]; [|auto].
  right. exists text. auto.
Qed.

Lemma step_last_text_trimmed (ev : event) (st : daemon) :
  strip (last_text st) = last_text st →
  strip (last_text (fst (step ev st))) = last_text (fst (step ev st)).
Proof.
  intros Hst. destruct ev as [control open_ok read|backend]; cbn [step].
  - rewrite monitor_last_text. exact Hst.
  - destruct (worker_last_text backend st) as [->|(text & _ & ->)]; [exact Hst|].
    destruct (last_text_after_cases (last_text st) text) as [->|[-> _]];
      [exact Hst|apply strip_idem].
Qed.

(** X2: in every run of the daemon [last_text], which is also the prompt
    handed to the backend, is trimmed text: [strip] leaves it as it is. *)
Theorem X2_last_text_trimmed (evs : list event) :
  strip (last_text (fst (run evs initial))) = last_text (fst (run evs initial)).
Proof.
  assert (H : ∀ st, strip (last_text st) = last_text st →
                    strip (last_text (fst (run evs st))) = last_text (fst (run evs st))).
  { induction evs as [|ev evs IH]; intros st Hst; [exact Hst|].
    rewrite run_cons. cbn [fst]. apply IH, step_last_text_trimmed, Hst. }
  apply H. reflexivity.
Qed.

(** ** Transcriptions that grow *)

(** A trimmed text that starts with [prev] is [prev], and nothing is typed,
    or it is longer, and what it adds to [prev] is typed. *)
Lemma reconcile_extension (prev c : str) :
  strip c = c → prev `prefix_of` c →
  (c = prev ∧ reconcile prev c = (None, prev))
  ∨ reconcile prev c = (Some (drop (length prev) c), c).
Proof.
  intros Hs Hpre.
  destruct (decide (c = prev)) as [->|Hne].
  - left. split; [reflexivity|]. apply reconcile_nothing. rewrite Hs. auto.
  - right.
    assert (Hlen : length prev < length c).
    { pose proof (prefix_length _ _ Hpre) as Hle.
      destruct (decide (length prev = length c)) as [He|He]; [|lia].
      exfalso. apply Hne. symmetry. apply (prefix_length_eq _ _ Hpre). lia. }
    assert (H0 : c ≠ []) by (intros ->; simpl in Hlen; lia).
    rewrite <- Hs at 2 3.
    apply reconcile_growth; rewrite ?Hs; try assumption.
    + apply longer_not_suffix; exact Hlen.
    + split; rewrite ?Hs; [exact Hlen|].
      transitivity prev; [apply prefix_take|exact Hpre].
Qed.

Lemma prefix_app_drop (prev c : str) :
  prev `prefix_of` c → prev ++ drop (length prev) c = c.
Proof. intros [k ->]. rewrite drop_app_length. reflexivity. Qed.

(** X3: when every transcription is trimmed and starts with the one before
    (the first one with [last_text]), the deltas typed one after the other,
    put after the [last_text] of the beginning, spell the last
    transcription, which is also the [last_text] of the end: nothing is typed
    twice and nothing is left out. *)
Theorem X3_growing_transcriptions_reconstruct (texts : list str) :
  ∀ prev : str,
    growing prev texts →
    prev ++ concat (fst (reconcile_all prev texts)) = snd (reconcile_all prev texts)
    ∧ snd (reconcile_all prev texts) = default prev (last texts).
Proof.
  induction texts as [|c texts IH]; intros prev Hg.
  - simpl. rewrite app_nil_r. auto.
  - destruct Hg as (Hs & Hpre & Hg). specialize (IH c Hg).
    assert (Hlast : default prev (last (c :: texts)) = default c (last texts)).
    { destruct texts as [|d texts']; [reflexivity|].
      rewrite last_cons_cons.
      destruct (last (d :: texts')) eqn:Hl; [reflexivity|].
      apply last_None in Hl. discriminate Hl. }
    rewrite Hlast. cbn [reconcile_all].
    destruct (reconcile_extension prev c Hs Hpre) as [[-> Hr]|Hr]; rewrite Hr.
    + destruct (reconcile_all prev texts) as [typed' last'']. exact IH.
    + destruct (reconcile_all c texts) as [typed' last'']. cbn [fst snd] in *.
      destruct IH as [IH1 IH2]. split; [|exact IH2].
      cbn [concat]. rewrite app_assoc, prefix_app_drop by exact Hpre. exact IH1.
Qed.

Lemma X3_growing_transcriptions_reconstruct_witness :
  growing [] [lit "hello"; lit "hello world"; lit "hello world again"]
  ∧ [] ++ concat (fst (reconcile_all []
        [lit "hello"; lit "hello world"; lit "hello world again"]))
    = snd (reconcile_all [] [lit "hello"; lit "hello world"; lit "hello world again"])
  ∧ snd (reconcile_all [] [lit "hello"; lit "hello world"; lit "hello world again"])
    = default [] (last [lit "hello"; lit "hello world"; lit "hello world again"]).
Proof.
  assert (Hg : growing [] [lit "hello"; lit "hello world"; lit "hello world again"]).
  { cbn [growing]. repeat split; try (vm_compute; reflexivity).
    - apply prefix_nil.
    - exists (lit " world"). vm_compute. reflexivity.
    - exists (lit " again"). vm_compute. reflexivity. }
  split; [exact Hg|].
  exact (X3_growing_transcriptions_reconstruct
           [lit "hello"; lit "hello world"; lit "hello world again"] [] Hg).
Defined.

(** ** Counting what the daemon does *)

Lemma step_typed_le_gets (ev : event) (st : daemon) :
  length (typed (snd (step ev st))) ≤ length (gets (snd (step ev st))).
Proof.
  destruct ev as [control open_ok read|backend]; cbn [step].
  - destruct (monitor_queue control open_ok read st) as (_ & -> & ->). simpl. lia.
  - unfold transcription_worker_iteration.
    destruct (workers st); [simpl; lia|].
    destruct (stop_threads st); [simpl; lia|].
    destruct (audio_queue st); [simpl; lia|].
    destruct backend as [text|]; [|simpl; lia].
    destruct (fst (reconcile (last_text st) text)); simpl; lia.
Qed.

(** X4: in every run, at most one text is typed for each segment the
    worker takes, and the worker takes no more segments than were
    dispatched. *)
Theorem X4_typed_gets_puts (evs : list event) :
  length (typed (snd (run evs initial))) ≤ length (gets (snd (run evs initial)))
  ∧ length (gets (snd (run evs initial))) ≤ length (puts (snd (run evs initial))).
Proof.
  split.
  - generalize initial. induction evs as [|ev evs IH]; intros st; [simpl; lia|].
    rewrite run_cons. cbn [snd]. rewrite typed_app, gets_app, !length_app.
    pose proof (step_typed_le_gets ev st). specialize (IH (fst (step ev st))). lia.
  - pose proof (run_queue evs initial) as H. cbn [audio_queue initial app] in H.
    rewrite H, length_app. lia.
Qed.

(** X5: once [stop_threads] is set, worker passes take nothing from the
    queue, type nothing and leave [last_text] alone; each pass ends one
    worker thread, until none is left. *)
Theorem X5_workers_wind_down (backends : list (option str)) :
  ∀ st : daemon,
    stop_threads st = true →
    snd (run (worker_passes backends) st) = []
    ∧ audio_queue (fst (run (worker_passes backends) st)) = audio_queue st
    ∧ last_text (fst (run (worker_passes backends) st)) = last_text st
    ∧ workers (fst (run (worker_passes backends) st)) = workers st - length backends.
Proof.
  induction backends as [|b backends IH]; intros st Hstop.
  - simpl. repeat split; lia.
  - unfold worker_passes in *. cbn [List.map]. rewrite run_cons. cbn [fst snd step].
    assert (Hstep : transcription_worker_iteration b st
                    = (match workers st with
                       | 0 => st
                       | S w => {| recording := recording st; stream := stream st;
                                  audio_buffer := audio_buffer st;
                                  audio_queue := audio_queue st;
                                  workers := w; stop_threads := stop_threads st;
                                  last_text := last_text st;
                                  last_command := last_command st |}
                       end, [])).
    { unfold transcription_worker_iteration. rewrite Hstop.
      destruct (workers st); reflexivity. }
    rewrite Hstep. cbn [fst snd app].
    destruct (workers st) as [|w] eqn:Hw.
    + destruct (IH st Hstop) as (-> & -> & -> & ->). rewrite Hw.
      repeat split; simpl; lia.
    + match goal with |- context [run _ ?s] => destruct (IH s Hstop) as (-> & -> & -> & ->) end.
      cbn [audio_queue last_text workers]. repeat split; simpl; lia.
Qed.

Lemma X5_workers_wind_down_witness :
  stop_threads (fst (stop_recording (silent 0 [[0%Z]] []))) = true
  ∧ snd (run (worker_passes [Some (lit "hello"); None])
             (fst (stop_recording (silent 0 [[0%Z]] [])))) = []
  ∧ audio_queue (fst (run (worker_passes [Some (lit "hello"); None])
                          (fst (stop_recording (silent 0 [[0%Z]] [])))))
    = audio_queue (fst (stop_recording (silent 0 [[0%Z]] [])))
  ∧ last_text (fst (run (worker_passes [Some (lit "hello"); None])
                        (fst (stop_recording (silent 0 [[0%Z]] [])))))
    = last_text (fst (stop_recording (silent 0 [[0%Z]] [])))
  ∧ workers (fst (run (worker_passes [Some (lit "hello"); None])
                      (fst (stop_recording (silent 0 [[0%Z]] [])))))
    = workers (fst (stop_recording (silent 0 [[0%Z]] [])))
      - length [Some (lit "hello"); None].
Proof.
  assert (H : stop_threads (fst (stop_recording (silent 0 [[0%Z]] []))) = true)
    by reflexivity.
  split; [exact H|].
  exact (X5_workers_wind_down [Some (lit "hello"); None]
           (fst (stop_recording (silent 0 [[0%Z]] []))) H).
Defined.

(** ** Decoding the samples *)

Lemma list_pair_ind {A : Type} (P : list A → Prop) :
  P [] → (∀ x, P [x]) → (∀ x y l, P l → P (x :: y :: l)) → ∀ l, P l.
Proof.
  intros H0 H1 H2 l.
  assert (H : P l ∧ ∀ x, P (x :: l)).
  { induction l as [|y l [IHl IHx]]; [auto|]. split; [apply IHx|]. intros x. apply H2, IHl. }
  apply H.
Qed.

Lemma frombuffer_int16_parity (chunk : list Z) :
  match frombuffer_int16 chunk with
  | Some audio_data => length chunk = 2 * length audio_data
                       ∧ Nat.odd (length chunk) = false
  | None => Nat.odd (length chunk) = true
  end.
Proof.
  revert chunk. apply list_pair_ind; [simpl; auto|simpl; auto|intros x y l IH].
  cbn [frombuffer_int16].
  change (Nat.odd (length (x :: y :: l))) with (Nat.odd (length l)).
  destruct (frombuffer_int16 l) as [data|]; [|exact IH].
  destruct IH as [IH1 IH2]. split; [|exact IH2]. simpl. lia.
Qed.

(** X6: [np.frombuffer] with [int16] fails exactly on the buffers of odd
    size, and gives one sample for every two bytes otherwise; then
    [process_audio_chunk] fails on the same buffers and on no other. *)
Theorem X6_frombuffer_even_size (chunk : list Z) (st : daemon) :
  match frombuffer_int16 chunk with
  | Some audio_data => length chunk = 2 * length audio_data
                       ∧ Nat.odd (length chunk) = false
  | None => Nat.odd (length chunk) = true
  end
  ∧ (process_audio_chunk chunk st = None ↔ Nat.odd (length chunk) = true).
Proof.
  pose proof (frombuffer_int16_parity chunk) as H.
  split; [exact H|].
  unfold process_audio_chunk.
  destruct (frombuffer_int16 chunk) as [data|].
  - destruct H as [_ H]. split; [discriminate|congruence].
  - split; auto.
Qed.

(** X7: bytes decode to signed sixteen-bit samples, and two different
    byte buffers never decode to the same samples. *)
Theorem X7_frombuffer_int16_range (chunk : list Z) :
  Forall (λ b, 0 ≤ b < 256)%Z chunk →
  match frombuffer_int16 chunk with
  | Some audio_data =>
      Forall (λ x, -32768 ≤ x < 32768)%Z audio_data
      ∧ ∀ chunk', Forall (λ b, 0 ≤ b < 256)%Z chunk' →
                  frombuffer_int16 chunk' = Some audio_data → chunk' = chunk
  | None => True
  end.
Proof.
  pattern chunk. apply list_pair_ind; clear chunk;
    [|intros x|intros x y l IH]; intros Hb.
  - simpl. split; [constructor|].
    intros [|a [|b l']] _; simpl; [reflexivity|discriminate|].
    destruct (frombuffer_int16 l'); discriminate.
  - exact I.
  - apply Forall_cons in Hb as [Hx Hb]. apply Forall_cons in Hb as [Hy Hb].
    specialize (IH Hb). cbn [frombuffer_int16].
    destruct (frombuffer_int16 l) as [data|]; [|exact I].
    destruct IH as [IHr IHi]. split.
    + constructor; [|exact IHr]. unfold int16_of_bytes.
      destruct (32768 <=? x + 256 * y)%Z eqn:Hs;
        [apply Z.leb_le in Hs|apply Z.leb_gt in Hs]; lia.
    + intros [|a [|b l']] Hb'; simpl; [discriminate..|].
      apply Forall_cons in Hb' as [Ha Hb']. apply Forall_cons in Hb' as [Hb0 Hb'].
      destruct (frombuffer_int16 l') as [data'|] eqn:Hl'; [|discriminate].
      intros Heq. injection Heq as Hv Hd. subst data'.
      rewrite (IHi l' Hb' Hl').
      assert (a = x ∧ b = y) as [-> ->]; [|reflexivity].
      unfold int16_of_bytes in Hv.
      destruct (32768 <=? a + 256 * b)%Z eqn:H1;
        [apply Z.leb_le in H1|apply Z.leb_gt in H1];
        (destruct (32768 <=? x + 256 * y)%Z eqn:H2;
         [apply Z.leb_le in H2|apply Z.leb_gt in H2]); lia.
Qed.

Lemma X7_frombuffer_int16_range_witness :
  Forall (λ b, 0 ≤ b < 256)%Z [255; 255; 0; 128; 1; 0]%Z
  ∧ match frombuffer_int16 [255; 255; 0; 128; 1; 0]%Z with
    | Some audio_data =>
        Forall (λ x, -32768 ≤ x < 32768)%Z audio_data
        ∧ ∀ chunk', Forall (λ b, 0 ≤ b < 256)%Z chunk' →
                    frombuffer_int16 chunk' = Some audio_data
                    → chunk' = [255; 255; 0; 128; 1; 0]%Z
    | None => True
    end.
Proof.
  assert (H : Forall (λ b, 0 ≤ b < 256)%Z [255; 255; 0; 128; 1; 0]%Z)
    by (repeat constructor; lia).
  split; [exact H|].
  exact (X7_frombuffer_int16_range [255; 255; 0; 128; 1; 0]%Z H).
Defined.

Example frombuffer_int16_signs :
  frombuffer_int16 [255; 255; 0; 128; 1; 0]%Z = Some [-1; -32768; 1]%Z.
Proof. reflexivity. Qed.

(** ** What an iteration of the control loop is made of *)

(** The command part gives [st1] and [out1]; the audio part, when it runs
    and succeeds, is [process_audio_chunk] on [st1]. *)
Lemma monitor_shape control open_ok read (st : daemon) :
  ∃ (st1 : daemon) out1,
    (monitor_iteration control open_ok read st = (st1, out1)
     ∨ ∃ data st2 out2,
         read = Some data
         ∧ process_audio_chunk data st1 = Some (st2, out2)
         ∧ monitor_iteration control open_ok read st = (st2, out1 ++ out2))
    ∧ (audio_buffer st1 = audio_buffer st ∨ audio_buffer st1 = [])
    ∧ puts out1 = [].
Proof.
  pose proof (stop_recording_buffer st) as Hb.
  pose proof (stop_recording_queue st) as (_ & Hp & _ & _).
  pose proof (start_recording_buffer open_ok st) as Hs.
  unfold monitor_iteration.
  destruct (stop_recording st) as [st0 out0]; cbn [fst snd] in Hb, Hp.
  repeat case_match; simplify_eq/=;
    lazymatch goal with
    | H : process_audio_chunk _ ?s1 = Some (_, ?o2) |- context [(_, ?o1 ++ ?o2)] =>
        exists s1, o1;
        split; [right; eexists _, _, _;
                split; [reflexivity|split; [exact H|reflexivity]]|]
    | H : process_audio_chunk _ ?s1 = Some _ |- _ =>
        exists s1, [];
        split; [right; eexists _, _, _;
                split; [reflexivity|split; [exact H|reflexivity]]|]
    | _ => eexists _, _; split; [left; reflexivity|]
    end;
    split; simpl; auto.
Qed.

Lemma monitor_shape_bounded control open_ok read (st : daemon) :
  buffer_bounded st →
  ∃ (st1 : daemon) out1,
    buffer_bounded st1
    ∧ puts out1 = []
    ∧ (monitor_iteration control open_ok read st = (st1, out1)
       ∨ ∃ data st2 out2,
           read = Some data
           ∧ process_audio_chunk data st1 = Some (st2, out2)
           ∧ monitor_iteration control open_ok read st = (st2, out1 ++ out2)).
Proof.
  intros Hst.
  destruct (monitor_shape control open_ok read st) as (st1 & out1 & H & Hb & Hp).
  exists st1, out1. split; [|auto].
  unfold buffer_bounded in *. destruct Hb as [-> | ->]; simpl; lia.
Qed.

(** ** The segments that are dispatched *)

Lemma process_audio_chunk_dispatch (chunk : list Z) (st st' : daemon) out :
  buffer_bounded st →
  process_audio_chunk chunk st = Some (st', out) →
  buffer_bounded st'
  ∧ length (audio_buffer st) ≤ length (audio_buffer st')
  ∧ (if (SEGMENT_LENGTH * SAMPLE_RATE <=? Z.of_nat (length (audio_buffer st')))%Z
     then out = [QueuePut (audio_buffer st')]
     else out = []).
Proof.
  intros Hst. unfold process_audio_chunk.
  destruct (frombuffer_int16 chunk) as [data|]; [|discriminate].
  intros H. injection H as <- <-. cbn [audio_buffer].
  split; [|split].
  - apply deque_extend_length. exact Hst.
  - rewrite deque_extend_lastn by exact Hst.
    rewrite length_lastn, length_app. unfold buffer_bounded in Hst. lia.
  - destruct (_ <=? _)%Z; reflexivity.
Qed.

Lemma step_puts_sized (ev : event) (st : daemon) :
  buffer_bounded st →
  Forall (λ seg : segment,
            (SEGMENT_LENGTH * SAMPLE_RATE ≤ Z.of_nat (length seg)
             ≤ BUFFER_LENGTH * SAMPLE_RATE)%Z)
         (puts (snd (step ev st))).
Proof.
  intros Hst. destruct ev as [control open_ok read|backend]; cbn [step].
  - destruct (monitor_shape_bounded control open_ok read st Hst)
      as (st1 & out1 & Hb & Hp & [->|(data & st2 & out2 & _ & Hproc & ->)]);
      cbn [snd]; rewrite ?puts_app, Hp; [constructor|].
    destruct (process_audio_chunk_dispatch data st1 st2 out2 Hb Hproc) as (Hb2 & _ & Hout).
    destruct (_ <=? _)%Z eqn:Ht; subst out2; [|constructor].
    apply Z.leb_le in Ht. simpl. constructor; [|constructor].
    split; [exact Ht|].
    unfold buffer_bounded, audio_buffer_maxlen in Hb2.
    unfold BUFFER_LENGTH, SAMPLE_RATE in *. lia.
  - destruct (worker_queue backend st) as (_ & ->). constructor.
Qed.

(** X8: in every run, every segment put on the job queue holds at least
    [SEGMENT_LENGTH] seconds and at most [BUFFER_LENGTH] seconds of audio. *)
Theorem X8_segments_between_two_and_ten_seconds (evs : list event) :
  Forall (λ seg : segment,
            (SEGMENT_LENGTH * SAMPLE_RATE ≤ Z.of_nat (length seg)
             ≤ BUFFER_LENGTH * SAMPLE_RATE)%Z)
         (puts (snd (run evs initial))).
Proof.
  assert (Hinit : buffer_bounded initial) by (unfold buffer_bounded; simpl; lia).
  revert Hinit. generalize initial.
  induction evs as [|ev evs IH]; intros st Hst; [constructor|].
  rewrite run_cons. cbn [snd]. rewrite puts_app. apply Forall_app. split.
  - apply step_puts_sized. exact Hst.
  - apply IH. apply step_buffer_bounded. exact Hst.
Qed.

(** X9: a chunk that decodes never shortens the rolling buffer; so once the
    buffer holds [SEGMENT_LENGTH] seconds, every chunk that decodes, be it
    empty, puts the whole buffer on the queue again. *)
Theorem X9_dispatch_on_every_chunk (chunk : list Z) (st : daemon) :
  buffer_bounded st →
  (SEGMENT_LENGTH * SAMPLE_RATE ≤ Z.of_nat (length (audio_buffer st)))%Z →
  match process_audio_chunk chunk st with
  | Some (st', out) =>
      length (audio_buffer st) ≤ length (audio_buffer st')
      ∧ out = [QueuePut (audio_buffer st')]
      ∧ audio_queue st' = audio_queue st ++ [audio_buffer st']
  | None => frombuffer_int16 chunk = None
  end.
Proof.
  intros Hst Hthr.
  destruct (process_audio_chunk chunk st) as [[st' out]|] eqn:Hproc.
  - destruct (process_audio_chunk_dispatch chunk st st' out Hst Hproc) as (_ & Hlen & Hout).
    destruct (process_audio_chunk_queue chunk st st' out Hproc) as (Hq & _).
    replace (SEGMENT_LENGTH * SAMPLE_RATE <=? Z.of_nat (length (audio_buffer st')))%Z
      with true in Hout by (symmetry; apply Z.leb_le; lia).
    subst out. auto.
  - unfold process_audio_chunk in Hproc.
    destruct (frombuffer_int16 chunk); [discriminate|reflexivity].
Qed.

Lemma X9_dispatch_on_every_chunk_witness :
  buffer_bounded (silent (Z.to_nat 32000) [] [])
  ∧ (SEGMENT_LENGTH * SAMPLE_RATE
     ≤ Z.of_nat (length (audio_buffer (silent (Z.to_nat 32000) [] []))))%Z
  ∧ match process_audio_chunk [] (silent (Z.to_nat 32000) [] []) with
    | Some (st', out) =>
        length (audio_buffer (silent (Z.to_nat 32000) [] [])) ≤ length (audio_buffer st')
        ∧ out = [QueuePut (audio_buffer st')]
        ∧ audio_queue st' = audio_queue (silent (Z.to_nat 32000) [] []) ++ [audio_buffer st']
    | None => frombuffer_int16 [] = None
    end.
Proof.
  assert (H1 : buffer_bounded (silent (Z.to_nat 32000) [] [])).
  { unfold buffer_bounded. cbn [audio_buffer silent]. rewrite length_replicate.
    unfold audio_buffer_maxlen, BUFFER_LENGTH, SAMPLE_RATE. lia. }
  assert (H2 : (SEGMENT_LENGTH * SAMPLE_RATE
                ≤ Z.of_nat (length (audio_buffer (silent (Z.to_nat 32000) [] []))))%Z).
  { cbn [audio_buffer silent]. rewrite length_replicate.
    unfold SEGMENT_LENGTH, SAMPLE_RATE. lia. }
  split; [exact H1|]. split; [exact H2|].
  exact (X9_dispatch_on_every_chunk [] (silent (Z.to_nat 32000) [] []) H1 H2).
Defined.

(** X10: no iteration of the control loop takes a segment off the job
    queue: the queue before is the beginning of the queue after, also when
    the iteration starts or stops a recording.  [start_recording] empties the
    rolling buffer and keeps the queue. *)
Theorem X10_control_loop_keeps_queue control open_ok read (st : daemon) :
  audio_queue st `prefix_of` audio_queue (fst (monitor_iteration control open_ok read st))
  ∧ audio_queue (start_recording open_ok st) = audio_queue st
  ∧ (audio_buffer (start_recording open_ok st) = []
     ∨ recording st = true ∧ start_recording open_ok st = st).
Proof.
  split; [|split].
  - destruct (monitor_queue control open_ok read st) as (-> & _).
    apply prefix_app_r. reflexivity.
  - apply start_recording_queue.
  - unfold start_recording. destruct (recording st); auto.
Qed.

(** ** Commands *)

Lemma process_audio_chunk_fields (chunk : list Z) (st st' : daemon) out :
  process_audio_chunk chunk st = Some (st', out) →
  recording st' = recording st ∧ stream st' = stream st
  ∧ workers st' = workers st ∧ stop_threads st' = stop_threads st
  ∧ last_command st' = last_command st
  ∧ Forall (λ a, ∃ seg, a = QueuePut seg) out.
Proof.
  unfold process_audio_chunk.
  destruct (frombuffer_int16 chunk) as [data|]; [|discriminate].
  intros H. injection H as <- <-. cbn.
  repeat split. destruct (_ <=? _)%Z; repeat constructor. eexists; reflexivity.
Qed.

(** X11: the control loop acts on a command only when it differs from the
    command of the iteration before.  While the control file keeps its
    content, no recording is started or stopped, no worker is started and no
    key is sent; in particular a start whose stream failed to open is not
    tried again, and the iteration does nothing at all. *)
Theorem X11_same_command_not_repeated content open_ok read (st : daemon) :
  strip content = last_command st →
  recording (fst (monitor_iteration (Some content) open_ok read st)) = recording st
  ∧ workers (fst (monitor_iteration (Some content) open_ok read st)) = workers st
  ∧ stop_threads (fst (monitor_iteration (Some content) open_ok read st)) = stop_threads st
  ∧ Forall (λ a, ∃ seg, a = QueuePut seg)
           (snd (monitor_iteration (Some content) open_ok read st))
  ∧ (recording st = false →
     monitor_iteration (Some content) open_ok read st = (st, [])).
Proof.
  intros Hc. unfold monitor_iteration. rewrite Hc, ne_same.
  destruct (recording st) eqn:Hr; cbn [andb].
  - destruct (stream st); [|repeat split; auto; discriminate].
    destruct read as [data|]; [|repeat split; auto; discriminate].
    destruct (process_audio_chunk data st) as [[st2 out2]|] eqn:Hp;
      [|repeat split; auto; discriminate].
    apply process_audio_chunk_fields in Hp as (H1 & _ & H3 & H4 & _ & H6).
    cbn [fst snd app]. rewrite H1, H3, H4. repeat split; auto. discriminate.
  - repeat split; auto.
Qed.

Lemma X11_same_command_not_repeated_witness :
  strip (lit " start ") = last_command (set_last_command (lit "start") (start_recording false initial))
  ∧ recording (fst (monitor_iteration (Some (lit " start ")) true (Some [])
                      (set_last_command (lit "start") (start_recording false initial))))
    = recording (set_last_command (lit "start") (start_recording false initial))
  ∧ workers (fst (monitor_iteration (Some (lit " start ")) true (Some [])
                    (set_last_command (lit "start") (start_recording false initial))))
    = workers (set_last_command (lit "start") (start_recording false initial))
  ∧ stop_threads (fst (monitor_iteration (Some (lit " start ")) true (Some [])
                         (set_last_command (lit "start") (start_recording false initial))))
    = stop_threads (set_last_command (lit "start") (start_recording false initial))
  ∧ Forall (λ a, ∃ seg, a = QueuePut seg)
      (snd (monitor_iteration (Some (lit " start ")) true (Some [])
              (set_last_command (lit "start") (start_recording false initial))))
  ∧ (recording (set_last_command (lit "start") (start_recording false initial)) = false →
     monitor_iteration (Some (lit " start ")) true (Some [])
       (set_last_command (lit "start") (start_recording false initial))
     = (set_last_command (lit "start") (start_recording false initial), [])).
Proof.
  assert (H : strip (lit " start ")
              = last_command (set_last_command (lit "start") (start_recording false initial)))
    by (vm_compute; reflexivity).
  split; [exact H|].
  exact (X11_same_command_not_repeated (lit " start ") true (Some [])
           (set_last_command (lit "start") (start_recording false initial)) H).
Defined.

(** X12: when the stream cannot be opened, [start_recording] has already
    emptied the buffer and started a worker thread: the daemon is not
    recording, yet one more worker runs with the stop flag down, it still
    takes what is left on the queue, and [stop_recording], which returns at
    once when nothing is recorded, does not end it. *)
Theorem X12_failed_open_leaves_worker (st : daemon) :
  recording st = false →
  recording (start_recording false st) = false
  ∧ audio_buffer (start_recording false st) = []
  ∧ workers (start_recording false st) = S (workers st)
  ∧ stop_threads (start_recording false st) = false
  ∧ stop_recording (start_recording false st) = (start_recording false st, [])
  ∧ ∀ seg rest backend,
      audio_queue st = seg :: rest →
      gets (snd (transcription_worker_iteration backend (start_recording false st)))
      = [seg].
Proof.
  intros Hr. unfold start_recording. rewrite Hr. cbn.
  repeat split.
  intros seg rest backend Hq. unfold transcription_worker_iteration. cbn.
  rewrite Hq. destruct backend as [text|]; [|reflexivity].
  destruct (fst (reconcile (last_text st) text)); reflexivity.
Qed.

Lemma X12_failed_open_leaves_worker_witness :
  recording initial = false
  ∧ recording (start_recording false initial) = false
  ∧ audio_buffer (start_recording false initial) = []
  ∧ workers (start_recording false initial) = S (workers initial)
  ∧ stop_threads (start_recording false initial) = false
  ∧ stop_recording (start_recording false initial) = (start_recording false initial, [])
  ∧ ∀ seg rest backend,
      audio_queue initial = seg :: rest →
      gets (snd (transcription_worker_iteration backend (start_recording false initial)))
      = [seg].
Proof.
  assert (H : recording initial = false) by reflexivity.
  split; [exact H|].
  exact (X12_failed_open_leaves_worker initial H).
Defined.



(** X14: a content of the control file that is neither ["start"] nor
    ["stop"] once trimmed, such as the ["ready"] that [setup] writes, starts
    and stops nothing and sends no key; it is remembered as the last
    command when it is new. *)
Theorem X14_other_commands_ignored content open_ok read (st : daemon) :
  strip content ≠ lit "start" → strip content ≠ lit "stop" →
  recording (fst (monitor_iteration (Some content) open_ok read st)) = recording st
  ∧ workers (fst (monitor_iteration (Some content) open_ok read st)) = workers st
  ∧ stop_threads (fst (monitor_iteration (Some content) open_ok read st)) = stop_threads st
  ∧ last_command (fst (monitor_iteration (Some content) open_ok read st)) = strip content
  ∧ Forall (λ a, ∃ seg, a = QueuePut seg)
           (snd (monitor_iteration (Some content) open_ok read st)).
Proof.
  intros H1 H2. unfold monitor_iteration.
  rewrite (bool_decide_eq_false_2 _ H1), (bool_decide_eq_false_2 _ H2).
  assert (Hst : ∃ st1 : daemon,
             (if ne (strip content) (last_command st)
              then (set_last_command (strip content) st, [])
              else (st, [])) = (st1, @nil action)
             ∧ recording st1 = recording st ∧ stream st1 = stream st
             ∧ workers st1 = workers st ∧ stop_threads st1 = stop_threads st
             ∧ last_command st1 = strip content).
  { destruct (ne (strip content) (last_command st)) eqn:Hne.
    - eexists. split; [reflexivity|]. cbn. auto.
    - exists st. split; [reflexivity|]. repeat split.
      unfold ne in Hne. apply bool_decide_eq_false in Hne.
      destruct (decide (strip content = last_command st)); [congruence|contradiction]. }
  destruct Hst as (st1 & Heq & Hr & Hs & Hw & Ht & Hc).
  replace (if ne (strip content) (last_command st)
           then let '(st', out) := (st, []) in (set_last_command (strip content) st', out)
           else (st, []))
    with (st1, @nil action)
    by (rewrite <- Heq; destruct (ne (strip content) (last_command st)); reflexivity).
  destruct (recording st1 && stream st1); [|cbn; auto].
  destruct read as [data|]; [|cbn; auto].
  destruct (process_audio_chunk data st1) as [[st2 out2]|] eqn:Hp; [|cbn; auto].
  apply process_audio_chunk_fields in Hp as (P1 & _ & P3 & P4 & P5 & P6).
  cbn [fst snd app]. rewrite P1, P3, P4, P5. auto.
Qed.

Lemma X14_other_commands_ignored_witness :
  strip (lit "ready" ++ [10%N]) ≠ lit "start"
  ∧ strip (lit "ready" ++ [10%N]) ≠ lit "stop"
  ∧ recording (fst (monitor_iteration (Some (lit "ready" ++ [10%N])) true None initial))
    = recording initial
  ∧ workers (fst (monitor_iteration (Some (lit "ready" ++ [10%N])) true None initial))
    = workers initial
  ∧ stop_threads (fst (monitor_iteration (Some (lit "ready" ++ [10%N])) true None initial))
    = stop_threads initial
  ∧ last_command (fst (monitor_iteration (Some (lit "ready" ++ [10%N])) true None initial))
    = strip (lit "ready" ++ [10%N])
  ∧ Forall (λ a, ∃ seg, a = QueuePut seg)
      (snd (monitor_iteration (Some (lit "ready" ++ [10%N])) true None initial)).
Proof.
  assert (H1 : strip (lit "ready" ++ [10%N]) ≠ lit "start") by (vm_compute; discriminate).
  assert (H2 : strip (lit "ready" ++ [10%N]) ≠ lit "stop") by (vm_compute; discriminate).
  split; [exact H1|]. split; [exact H2|].
  exact (X14_other_commands_ignored (lit "ready" ++ [10%N]) true None initial H1 H2).
Defined.

(** X15: a read that raises and a chunk of odd size are skipped: with the
    command unchanged, the iteration leaves the daemon as it was and does
    nothing; so does an iteration that cannot read the control file. *)
Theorem X15_failed_read_skipped content open_ok read (st : daemon) :
  strip content = last_command st →
  (read = None ∨ ∃ chunk, read = Some chunk ∧ Nat.odd (length chunk) = true) →
  monitor_iteration (Some content) open_ok read st = (st, [])
  ∧ monitor_iteration None open_ok read st = (st, []).
Proof.
  intros Hc Hread. split; [|reflexivity].
  unfold monitor_iteration. rewrite Hc, ne_same.
  destruct (recording st && stream st); [|reflexivity].
  destruct Hread as [-> | (chunk & -> & Hodd)]; [reflexivity|].
  unfold process_audio_chunk.
  pose proof (frombuffer_int16_parity chunk) as Hf.
  destruct (frombuffer_int16 chunk) as [data|]; [|reflexivity].
  destruct Hf as [_ Hf]. congruence.
Qed.

Lemma X15_failed_read_skipped_witness :
  strip (lit "start") = last_command (silent 3 [] [])
  ∧ (Some [0; 0; 0]%Z = None
     ∨ ∃ chunk, Some [0; 0; 0]%Z = Some chunk ∧ Nat.odd (length chunk) = true)
  ∧ monitor_iteration (Some (lit "start")) true (Some [0; 0; 0]%Z) (silent 3 [] [])
    = (silent 3 [] [], [])
  ∧ monitor_iteration None true (Some [0; 0; 0]%Z) (silent 3 [] []) = (silent 3 [] [], []).
Proof.
  assert (H1 : strip (lit "start") = last_command (silent 3 [] []))
    by (vm_compute; reflexivity).
  assert (H2 : Some [0; 0; 0]%Z = None
               ∨ ∃ chunk, Some [0; 0; 0]%Z = Some chunk ∧ Nat.odd (length chunk) = true)
    by (right; exists [0; 0; 0]%Z; split; reflexivity).
  split; [exact H1|]. split; [exact H2|].
  exact (X15_failed_read_skipped (lit "start") true (Some [0; 0; 0]%Z) (silent 3 [] []) H1 H2).
Defined.

(** ** [whisper-daemon.py]: what is transcribed at the stop *)

Lemma batch_run_cons i ins (st : Batch.daemon) :
  Batch.run (i :: ins) st
  = (fst (Batch.run ins (fst (Batch.monitor_iteration i st))),
     snd (Batch.monitor_iteration i st)
     ++ snd (Batch.run ins (fst (Batch.monitor_iteration i st)))).
Proof.
  simpl. destruct (Batch.monitor_iteration i st) as [st1 out1]. simpl.
  destruct (Batch.run ins st1) as [st2 out2]. reflexivity.
Qed.


Lemma strip_stop : strip (lit "stop") = lit "stop".
Proof. vm_compute. reflexivity. Qed.

Lemma ne_true_2 (a b : str) : a ≠ b → ne a b = true.
Proof. intros H. apply ne_true. exact H. Qed.







(** X17: in [whisper-daemon.py], when the WAV file cannot be written the
    exception leaves [stop_recording_and_process] after [recording] was
    cleared and before the command is remembered: nothing is transcribed,
    and the stop command, seen again by the next iteration, finds nothing
    recording and does nothing; the audio of the session is never
    transcribed. *)
Theorem X17_batch_wave_failure (backend : option str) (xdotool : Batch.outcome)
    (st : Batch.daemon) :
  Batch.recording st = true → Batch.frames st ≠ [] →
  Batch.last_command st ≠ lit "stop" →
  snd (Batch.monitor_iteration (Batch.finish false backend xdotool) st) = []
  ∧ Batch.recording (fst (Batch.monitor_iteration (Batch.finish false backend xdotool) st))
    = false
  ∧ Batch.last_command (fst (Batch.monitor_iteration (Batch.finish false backend xdotool) st))
    = Batch.last_command st
  ∧ ∀ wave_ok backend' xdotool',
      snd (Batch.monitor_iteration (Batch.finish wave_ok backend' xdotool')
             (fst (Batch.monitor_iteration (Batch.finish false backend xdotool) st)))
      = [].
Proof.
  intros Hr Hf Hc.
  assert (Hstep : Batch.monitor_iteration (Batch.finish false backend xdotool) st
                  = (Batch.mkDaemon false (Batch.stream st) (Batch.frames st)
                       (Batch.last_command st), [])).
  { unfold Batch.monitor_iteration, Batch.finish.
    cbn [Batch.control Batch.open_ok Batch.read Batch.wave_ok Batch.backend Batch.xdotool].
    rewrite strip_stop, ne_true_2 by (intros Heq; apply Hc; symmetry; exact Heq).
    rewrite bool_decide_eq_false_2 by discriminate.
    rewrite bool_decide_eq_true_2 by reflexivity.
    unfold Batch.stop_recording_and_process. rewrite Hr. cbn [negb].
    destruct (Batch.frames st); [contradiction|reflexivity]. }
  rewrite Hstep. cbn [fst snd Batch.recording Batch.last_command].
  repeat split.
  intros wave_ok backend' xdotool'.
  unfold Batch.monitor_iteration, Batch.finish.
  cbn [Batch.control Batch.open_ok Batch.read Batch.wave_ok Batch.backend Batch.xdotool
       Batch.last_command].
  rewrite strip_stop, ne_true_2 by (intros Heq; apply Hc; symmetry; exact Heq).
  rewrite bool_decide_eq_false_2 by discriminate.
  rewrite bool_decide_eq_true_2 by reflexivity.
  reflexivity.
Qed.

Lemma X17_batch_wave_failure_witness :
  Batch.recording (Batch.mkDaemon true true [[1; 0]%Z] (lit "start")) = true
  ∧ Batch.frames (Batch.mkDaemon true true [[1; 0]%Z] (lit "start")) ≠ []
  ∧ Batch.last_command (Batch.mkDaemon true true [[1; 0]%Z] (lit "start")) ≠ lit "stop"
  ∧ snd (Batch.monitor_iteration (Batch.finish false None Batch.Returned)
           (Batch.mkDaemon true true [[1; 0]%Z] (lit "start"))) = []
  ∧ Batch.recording
      (fst (Batch.monitor_iteration (Batch.finish false None Batch.Returned)
              (Batch.mkDaemon true true [[1; 0]%Z] (lit "start")))) = false
  ∧ Batch.last_command
      (fst (Batch.monitor_iteration (Batch.finish false None Batch.Returned)
              (Batch.mkDaemon true true [[1; 0]%Z] (lit "start"))))
    = Batch.last_command (Batch.mkDaemon true true [[1; 0]%Z] (lit "start"))
  ∧ ∀ wave_ok backend' xdotool',
      snd (Batch.monitor_iteration (Batch.finish wave_ok backend' xdotool')
             (fst (Batch.monitor_iteration (Batch.finish false None Batch.Returned)
                     (Batch.mkDaemon true true [[1; 0]%Z] (lit "start")))))
      = [].
Proof.
  assert (H1 : Batch.recording (Batch.mkDaemon true true [[1; 0]%Z] (lit "start")) = true)
    by reflexivity.
  assert (H2 : Batch.frames (Batch.mkDaemon true true [[1; 0]%Z] (lit "start")) ≠ [])
    by discriminate.
  assert (H3 : Batch.last_command (Batch.mkDaemon true true [[1; 0]%Z] (lit "start"))
               ≠ lit "stop") by discriminate.
  split; [exact H1|]. split; [exact H2|]. split; [exact H3|].
  exact (X17_batch_wave_failure None Batch.Returned
           (Batch.mkDaemon true true [[1; 0]%Z] (lit "start")) H1 H2 H3).
Defined.

(** ** What a reconcile step changes *)

(** X18: a reconcile step changes [last_text] exactly when it types
    something; the text typed then ends the new [last_text] or is the new
    [last_text] after a space. *)
Theorem X18_state_changes_iff_typed (prev text : str) :
  (emitted prev text = None ↔ last_text_after prev text = prev)
  ∧ match emitted prev text with
    | Some new_text =>
        new_text `suffix_of` last_text_after prev text
        ∨ new_text = lit " " ++ last_text_after prev text
    | None => True
    end.
Proof.
  unfold emitted, last_text_after, reconcile.
  destruct (truthy (strip text)); [|split; [tauto|exact I]].
  destruct (ne (strip text) prev) eqn:Hne; [|split; [tauto|exact I]].
  destruct (endswith prev (strip text)); cbn [andb negb fst snd];
    [split; [tauto|exact I]|].
  apply ne_true in Hne. split.
  - split; [discriminate|]. intros Heq. contradiction.
  - destruct (_ && _); [left; apply suffix_drop|right; reflexivity].
Qed.

(** ** The audio of a session *)

Lemma process_audio_chunk_decoded (chunk data : list Z) (st : daemon) :
  frombuffer_int16 chunk = Some data →
  ∃ (st' : daemon) out,
    process_audio_chunk chunk st = Some (st', out)
    ∧ recording st' = recording st ∧ stream st' = stream st
    ∧ last_command st' = last_command st
    ∧ audio_buffer st' = deque_extend audio_buffer_maxlen (audio_buffer st) data.
Proof.
  intros Hd. unfold process_audio_chunk. rewrite Hd.
  eexists _, _. split; [reflexivity|]. cbn. auto.
Qed.

(** While the control file says ["start"] and the stream is open, the reads
    are pushed on the buffer one after the other. *)
Lemma run_session_reads (chunks datas : list (list Z)) :
  Forall2 (λ chunk data, frombuffer_int16 chunk = Some data) chunks datas →
  ∀ st : daemon,
    recording st = true → stream st = true → last_command st = lit "start" →
    buffer_bounded st →
    let st' := fst (run (List.map (λ chunk, Monitor (Some (lit "start")) true (Some chunk))
                                  chunks) st) in
    recording st' = true ∧ stream st' = true ∧ last_command st' = lit "start"
    ∧ audio_buffer st' = lastn audio_buffer_maxlen (audio_buffer st ++ concat datas).
Proof.
  induction 1 as [|chunk data chunks datas Hd _ IH]; intros st Hr Hs Hc Hb.
  - cbn. rewrite app_nil_r, lastn_all by exact Hb. auto.
  - cbn [List.map concat]. cbv zeta. rewrite run_cons. cbn [fst step].
    rewrite monitor_same_command by (rewrite ?strip_start; auto).
    destruct (process_audio_chunk_decoded chunk data st Hd)
      as (st1 & out1 & -> & Hr1 & Hs1 & Hc1 & Hb1).
    assert (Hbb : buffer_bounded st1)
      by (unfold buffer_bounded; rewrite Hb1; apply deque_extend_length; exact Hb).
    specialize (IH st1 ltac:(congruence) ltac:(congruence) ltac:(congruence) Hbb).
    cbv zeta in IH. destruct IH as (I1 & I2 & I3 & I4).
    cbn [fst]. rewrite I1, I2, I3, I4.
    repeat split.
    rewrite Hb1, deque_extend_lastn by exact Hb.
    rewrite lastn_app_lastn, <- app_assoc. reflexivity.
Qed.

(** X19: a session that starts from rest with a stream that opens holds in
    its rolling buffer, after any number of reads that decode, the last
    samples of these reads, up to the capacity, whatever the buffer held
    before the start. *)
Theorem X19_session_buffer (chunk0 data0 : list Z) (chunks datas : list (list Z))
    (st : daemon) :
  recording st = false → last_command st ≠ lit "start" →
  Forall2 (λ chunk data, frombuffer_int16 chunk = Some data)
          (chunk0 :: chunks) (data0 :: datas) →
  audio_buffer
    (fst (run (List.map (λ chunk, Monitor (Some (lit "start")) true (Some chunk))
                        (chunk0 :: chunks)) st))
  = lastn audio_buffer_maxlen (concat (data0 :: datas)).
Proof.
  intros Hr Hc Hall.
  apply Forall2_cons in Hall as [Hd0 Hall].
  cbn [List.map]. rewrite run_cons. cbn [fst step].
  assert (Hfirst : ∃ (st1 : daemon) out1,
             monitor_iteration (Some (lit "start")) true (Some chunk0) st = (st1, out1)
             ∧ recording st1 = true ∧ stream st1 = true
             ∧ last_command st1 = lit "start"
             ∧ audio_buffer st1 = deque_extend audio_buffer_maxlen [] data0).
  { unfold monitor_iteration.
    rewrite strip_start, ne_true_2 by (intros Heq; apply Hc; symmetry; exact Heq).
    rewrite bool_decide_eq_true_2 by reflexivity.
    unfold start_recording. rewrite Hr. cbn [set_last_command recording stream andb
      audio_buffer audio_queue workers stop_threads last_text last_command].
    match goal with
    | |- context [process_audio_chunk chunk0 ?s] =>
        destruct (process_audio_chunk_decoded chunk0 data0 s Hd0)
          as (st1 & out1 & -> & H1 & H2 & H3 & H4)
    end.
    eexists _, _. split; [reflexivity|]. cbn in H1, H2, H3, H4. auto. }
  destruct Hfirst as (st1 & out1 & -> & Hr1 & Hs1 & Hc1 & Hb1). cbn [fst].
  assert (Hbb : buffer_bounded st1)
    by (unfold buffer_bounded; rewrite Hb1; apply deque_extend_length; simpl; lia).
  destruct (run_session_reads chunks datas Hall st1 Hr1 Hs1 Hc1 Hbb) as (_ & _ & _ & ->).
  rewrite Hb1, deque_extend_lastn by (simpl; lia).
  rewrite lastn_app_lastn. reflexivity.
Qed.

Lemma X19_session_buffer_witness :
  recording initial = false
  ∧ last_command initial ≠ lit "start"
  ∧ Forall2 (λ chunk data, frombuffer_int16 chunk = Some data)
            ([1; 0] :: [[255; 255]])%Z ([1] :: [[-1]])%Z
  ∧ audio_buffer
      (fst (run (List.map (λ chunk, Monitor (Some (lit "start")) true (Some chunk))
                          ([1; 0] :: [[255; 255]])%Z) initial))
    = lastn audio_buffer_maxlen (concat ([1] :: [[-1]])%Z).
Proof.
  assert (H1 : recording initial = false) by reflexivity.
  assert (H2 : last_command initial ≠ lit "start") by discriminate.
  assert (H3 : Forall2 (λ chunk data, frombuffer_int16 chunk = Some data)
                       ([1; 0] :: [[255; 255]])%Z ([1] :: [[-1]])%Z)
    by (repeat constructor).
  split; [exact H1|]. split; [exact H2|]. split; [exact H3|].
  exact (X19_session_buffer [1; 0]%Z [1]%Z [[255; 255]%Z] [[-1]%Z] initial H1 H2 H3).
Defined.

(** ** [whisper-daemon.py]: what is typed *)

Lemma batch_stop_out (wave_ok : bool) (backend : option str) (xdotool : Batch.outcome)
    (st : Batch.daemon) :
  let out := snd (fst (Batch.stop_recording_and_process wave_ok backend xdotool st)) in
  Forall (λ t : str, t ≠ [] ∧ strip t = t) (Batch.typed out)
  ∧ Batch.copied out `sublist_of` Batch.typed out
  ∧ length (Batch.typed out) ≤ length (Batch.written out)
  ∧ (Batch.copied out ≠ [] → xdotool = Batch.Unavailable).
Proof.
  assert (Hnone : Forall (λ t : str, t ≠ [] ∧ strip t = t) []
                  ∧ @nil str `sublist_of` []
                  ∧ 0 ≤ 0
                  ∧ (@nil str ≠ [] → xdotool = Batch.Unavailable)).
  { split; [constructor|split; [reflexivity|split; [lia|intros H; contradiction]]]. }
  assert (Hnone2 : ∀ d : list Z,
             Forall (λ t : str, t ≠ [] ∧ strip t = t) []
             ∧ @nil str `sublist_of` []
             ∧ 0 ≤ length [d]
             ∧ (@nil str ≠ [] → xdotool = Batch.Unavailable)).
  { intros d. split; [constructor|split; [reflexivity|split; [simpl; lia|intros H; contradiction]]]. }
  unfold Batch.stop_recording_and_process.
  destruct (Batch.recording st); cbn [negb]; [|exact Hnone].
  destruct (Batch.frames st) as [|f fs]; [exact Hnone|].
  destruct wave_ok; cbn [negb]; [|exact Hnone].
  destruct backend as [text|]; [|exact (Hnone2 _)].
  destruct (truthy (strip text)) eqn:Ht; [|exact (Hnone2 _)].
  apply truthy_true in Ht.
  assert (Hok : Forall (λ t : str, t ≠ [] ∧ strip t = t) [strip text])
    by (constructor; [split; [exact Ht|apply strip_idem]|constructor]).
  destruct xdotool; cbn; (split; [exact Hok|]).
  - split; [apply sublist_nil_l|]. split; [lia|intros H; contradiction].
  - split; [reflexivity|]. split; [lia|reflexivity].
  - split; [apply sublist_nil_l|]. split; [lia|intros H; contradiction].
Qed.

Lemma batch_monitor_out (i : Batch.input) (st : Batch.daemon) :
  snd (Batch.monitor_iteration i st) = []
  ∨ snd (Batch.monitor_iteration i st)
    = snd (fst (Batch.stop_recording_and_process
                  (Batch.wave_ok i) (Batch.backend i) (Batch.xdotool i) st)).
Proof.
  unfold Batch.monitor_iteration.
  destruct (Batch.stop_recording_and_process
              (Batch.wave_ok i) (Batch.backend i) (Batch.xdotool i) st)
    as [[st0 out0] raised0].
  repeat case_match; simplify_eq/=; auto.
Qed.

(** X20: in every run of [whisper-daemon.py], every text typed is trimmed
    and not empty, at most one text is typed for each WAV file written, and
    the texts sent to the clipboard are among the texts typed, in their
    order. *)
Theorem X20_batch_typed_texts (ins : list Batch.input) (st : Batch.daemon) :
  Forall (λ t : str, t ≠ [] ∧ strip t = t) (Batch.typed (snd (Batch.run ins st)))
  ∧ Batch.copied (snd (Batch.run ins st)) `sublist_of` Batch.typed (snd (Batch.run ins st))
  ∧ length (Batch.typed (snd (Batch.run ins st)))
    ≤ length (Batch.written (snd (Batch.run ins st))).
Proof.
  revert st. induction ins as [|i ins IH]; intros st.
  - cbn. repeat split; [constructor|reflexivity|lia].
  - rewrite batch_run_cons. cbn [snd].
    unfold Batch.typed, Batch.copied, Batch.written in *.
    rewrite !omap_app, !length_app.
    destruct (IH (fst (Batch.monitor_iteration i st))) as (I1 & I2 & I3).
    assert (Hstep :
      Forall (λ t : str, t ≠ [] ∧ strip t = t)
        (omap (λ a, match a with Batch.XdotoolType t => Some t | _ => None end)
              (snd (Batch.monitor_iteration i st)))
      ∧ omap (λ a, match a with Batch.XclipCopy t => Some t | _ => None end)
             (snd (Batch.monitor_iteration i st))
        `sublist_of`
        omap (λ a, match a with Batch.XdotoolType t => Some t | _ => None end)
             (snd (Batch.monitor_iteration i st))
      ∧ length (omap (λ a, match a with Batch.XdotoolType t => Some t | _ => None end)
                     (snd (Batch.monitor_iteration i st)))
        ≤ length (omap (λ a, match a with Batch.WaveWrite d => Some d | _ => None end)
                       (snd (Batch.monitor_iteration i st)))).
    { destruct (batch_monitor_out i st) as [-> | ->].
      - cbn. repeat split; [constructor|reflexivity|lia].
      - destruct (batch_stop_out (Batch.wave_ok i) (Batch.backend i) (Batch.xdotool i) st)
          as (H1 & H2 & H3 & _).
        repeat split; assumption. }
    destruct Hstep as (S1 & S2 & S3).
    repeat split.
    + apply Forall_app. split; assumption.
    + apply sublist_app; assumption.
    + lia.
Qed.

(** * The worker pass under interleaving *)







